(** * Braid model: a shallow embedding of [src/braid.ts]

    The TypeScript module keeps a braid as a record of two numbers and a
    [Set<Crossing>].  A JavaScript [Set] of objects compares its members by
    reference and iterates in insertion order, and every crossing that the
    module puts in a set is a freshly allocated object, so structurally
    equal crossings can sit side by side: the set is embedded as a [list]
    in insertion order (module [Heap] below keeps the object identities
    and shows that nothing is lost).  Numbers are the integers among the
    doubles, embedded as [Z]; the subtractions of the module round as
    doubles do ([jsMinus]). *)

From Stdlib Require Import ZArith List Bool Lia String DecimalString.
From Stdlib Require Import Permutation.
Import ListNotations.
Local Open Scope Z_scope.

(** ** Data model *)

(** [type CrossingKind = "S" | "Z"] *)
Inductive CrossingKind : Type :=
| KindS
| KindZ.

(** [type Crossing = { kind; rowIndex; colIndex }] *)
Record Crossing : Type := mkCrossing {
  kind : CrossingKind;
  rowIndex : Z;
  colIndex : Z
}.

(** [type Braid = { length; ropes; crossings }] *)
Record Braid : Type := mkBraid {
  length : Z;
  ropes : Z;
  crossings : list Crossing
}.

(** The four [throw new Error(...)] sites of [handleCrossingRequest], each
    with the values its message interpolates. *)
Inductive RangeError : Type :=
| NegativeY (row : Z)
| NegativeX (col : Z)
| YTooHigh (row height : Z)
| XTooHigh (col width : Z).

(** What a call does: it throws, or it returns [Braid | null]. *)
Inductive Outcome : Type :=
| Throws (e : RangeError)
| Returns (r : option Braid).

(** ** Numbers

    A JavaScript number is an IEEE 754 double: 53 bits of significand,
    results rounded to the nearest double, ties to the even significand.
    Every integer of magnitude up to [2 ^ 53] is a double; above, the
    doubles are the multiples of [2 ^ e] with [e = log2 |z| - 52].  The
    largest double is not modelled: the module subtracts 1 or 2 from a
    double, which stays finite, and compares a difference of two column
    indices with 1, which an infinite difference and a huge finite one
    both fail. *)

(** The double nearest to the integer [z]. *)
Definition roundDouble (z : Z) : Z :=
  let a := Z.abs z in
  let e := Z.log2 a - 52 in
  if e <=? 0 then z
  else
    let ulp := 2 ^ e in
    let q := a / ulp in
    let r := a mod ulp in
    let half := ulp / 2 in
    let q' :=
      if r <? half then q
      else if half <? r then q + 1
      else if Z.even q then q else q + 1 in
    Z.sgn z * (q' * ulp).

(** [x - y] on numbers. *)
Definition jsMinus (x y : Z) : Z := roundDouble (x - y).

(** The decimal digits of an integer, which is how a template literal
    prints an integer of magnitude below [10 ^ 21]. *)
Definition showZ (z : Z) : string := NilEmpty.string_of_int (Z.to_int z).

(** The text of the thrown [Error]; [show] is the conversion of a number
    to a string that the template literal applies. *)
Definition errorMessage (show : Z -> string) (e : RangeError) : string :=
  match e with
  | NegativeY row =>
      ("Negative y index: " ++ show row ++ " is not supported")%string
  | NegativeX col =>
      ("Negative x index: " ++ show col ++ " is not supported")%string
  | YTooHigh row height =>
      ("y index of " ++ show row ++ " is too high for braid with height: "
         ++ show height)%string
  | XTooHigh col width =>
      ("x index of " ++ show col ++ " is too high for braid with width: "
         ++ show width)%string
  end.

(** ** Operations *)

(** [createBraid]: a 10 x 10 braid with [new Set()]. *)
Definition createBraid : Braid :=
  {| length := 10; ropes := 10; crossings := [] |}.

(** [cloneBraid]: same fields, every crossing copied by [{ ...crossing }]. *)
Definition cloneBraid (braid : Braid) : Braid :=
  {| length := length braid;
     ropes := ropes braid;
     crossings :=
       map (fun crossing =>
              {| kind := kind crossing;
                 rowIndex := rowIndex crossing;
                 colIndex := colIndex crossing |})
           (crossings braid) |}.

(** [createCrossing]: clone, then [new Set([...newBraid.crossings, crossing])]. *)
Definition createCrossing (crossing : Crossing) (braid : Braid) : Braid :=
  let newBraid := cloneBraid braid in
  {| length := length newBraid;
     ropes := ropes newBraid;
     crossings := crossings newBraid ++ [crossing] |}.

(** [removeCrossing]: clone, then filter with the predicate of the source,
    [crossing.rowIndex === rowIndex && crossing.colIndex === colIndex]. *)
Definition removeCrossing (row col : Z) (braid : Braid) : Braid :=
  let newBraid := cloneBraid braid in
  {| length := length newBraid;
     ropes := ropes newBraid;
     crossings :=
       filter (fun crossing =>
                 (rowIndex crossing =? row) && (colIndex crossing =? col))
              (crossings newBraid) |}.

(** [updateCrossing]: [createCrossing] after [removeCrossing]. *)
Definition updateCrossing (crossing : Crossing) (braid : Braid) : Braid :=
  createCrossing crossing
    (removeCrossing (rowIndex crossing) (colIndex crossing) braid).

(** [handleCrossingRequest(braid, [colIndex, rowIndex])]. *)
Definition handleCrossingRequest (braid : Braid) (location : Z * Z) : Outcome :=
  let '(col, row) := location in
  if row <? 0 then Throws (NegativeY row)
  else if col <? 0 then Throws (NegativeX col)
  else if row >? jsMinus (length braid) 1
  then Throws (YTooHigh row (length braid))
  else if col >? jsMinus (ropes braid) 2
  then Throws (XTooHigh col (ropes braid))
  else
    let crossingsInRow :=
      filter (fun crossing => rowIndex crossing =? row) (crossings braid) in
    if existsb (fun crossing => Z.abs (jsMinus (colIndex crossing) col) =? 1)
               crossingsInRow
    then Returns None
    else
      match find (fun crossing => colIndex crossing =? col) crossingsInRow with
      | None =>
          Returns (Some (createCrossing
                           {| kind := KindS; rowIndex := row; colIndex := col |}
                           braid))
      | Some crossingAtLocation =>
          match kind crossingAtLocation with
          | KindS =>
              Returns (Some (updateCrossing
                               {| kind := KindZ; rowIndex := row; colIndex := col |}
                               braid))
          | KindZ => Returns (Some (removeCrossing row col braid))
          end
      end.

(** ** Vocabulary of the properties *)

(** The location is inside the grid: none of the four range checks fires.
    The upper bounds are [length - 1] and [ropes - 2] as the handler
    computes them; a location given by doubles in rows [0 .. length - 1]
    and columns [0 .. ropes - 2] is in bounds ([inBounds_of_exact]), and
    for dimensions up to [2 ^ 53] these are all ([inBounds_exact_iff]). *)
Definition inBounds (braid : Braid) (col row : Z) : Prop :=
  0 <= row <= jsMinus (length braid) 1 /\ 0 <= col <= jsMinus (ropes braid) 2.

(** The crossing sits in cell [(row, col)]. *)
Definition atLocation (row col : Z) (crossing : Crossing) : bool :=
  (rowIndex crossing =? row) && (colIndex crossing =? col).

(** Some crossing of row [row] sits one column away from [col]. *)
Definition adjacentConflict (braid : Braid) (col row : Z) : Prop :=
  exists crossing,
    In crossing (crossings braid) /\
    rowIndex crossing = row /\
    Z.abs (colIndex crossing - col) = 1.

(** The crossing that the handler finds in the cell: the first one, in
    insertion order, of row [row] and column [col]. *)
Definition crossingAt (braid : Braid) (col row : Z) : option Crossing :=
  find (atLocation row col) (crossings braid).

(** The cell of every crossing, in insertion order. *)
Definition cells (cs : list Crossing) : list (Z * Z) :=
  map (fun crossing => (rowIndex crossing, colIndex crossing)) cs.

(** At most one crossing per [(rowIndex, colIndex)] pair. *)
Definition uniquePerCell (cs : list Crossing) : Prop := NoDup (cells cs).

(** The remove helper as section 4.3 of the specification words it: the
    crossing set without any crossing at the location.  Only used to
    compare with [removeCrossing]. *)
Definition removeCrossing_documented (row col : Z) (braid : Braid) : Braid :=
  {| length := length braid;
     ropes := ropes braid;
     crossings :=
       filter (fun crossing => negb (atLocation row col crossing))
              (crossings braid) |}.

(** ** The same module with object identities

    Crossings are heap objects and [Set<Crossing>] compares them by
    reference.  Here every object carries the reference it was allocated
    at, a set is an insertion-ordered list without repeated references,
    and the functions thread the allocator through.  No function of the
    module writes to a crossing after creating it, so an object is kept as
    its reference together with its (immutable) fields. *)
Module Heap.

Definition Ref : Type := nat.

Record CrossingObj : Type := mkCrossingObj {
  ref : Ref;
  fields : Crossing
}.

(** [Set<Crossing>] in insertion order. *)
Definition JSSet : Type := list CrossingObj.

Definition setHas (s : JSSet) (o : CrossingObj) : bool :=
  existsb (fun member => Nat.eqb (ref member) (ref o)) s.

(** [Set.prototype.add]: a reference already present is not added again. *)
Definition setAdd (s : JSSet) (o : CrossingObj) : JSSet :=
  if setHas s o then s else s ++ [o].

(** [new Set(iterable)] *)
Definition newSet (items : list CrossingObj) : JSSet :=
  fold_left setAdd items [].

Record BraidObj : Type := mkBraidObj {
  length : Z;
  ropes : Z;
  crossings : JSSet
}.

Inductive OutcomeObj : Type :=
| ThrowsObj (e : RangeError)
| ReturnsObj (r : option BraidObj).

(** Computations that allocate: the state is the next unused reference. *)
Definition Alloc (A : Type) : Type := Ref -> A * Ref.

Definition ret {A : Type} (a : A) : Alloc A := fun n => (a, n).

Definition bind {A B : Type} (m : Alloc A) (k : A -> Alloc B) : Alloc B :=
  fun n => let (a, n') := m n in k a n'.

Notation "x <- m ;; k" := (bind m (fun x => k))
  (at level 61, m at next level, right associativity).

(** An object literal: a new object at the next reference. *)
Definition new (c : Crossing) : Alloc CrossingObj :=
  fun n => ({| ref := n; fields := c |}, S n).

(** [Array.prototype.map] with an allocating callback. *)
Fixpoint mapAlloc {A B : Type} (f : A -> Alloc B) (l : list A)
  : Alloc (list B) :=
  match l with
  | [] => ret []
  | a :: rest =>
      b <- f a ;;
      bs <- mapAlloc f rest ;;
      ret (b :: bs)
  end.

Definition cloneBraid (braid : BraidObj) : Alloc BraidObj :=
  copies <- mapAlloc
              (fun crossing =>
                 new {| kind := kind (fields crossing);
                        rowIndex := rowIndex (fields crossing);
                        colIndex := colIndex (fields crossing) |})
              (crossings braid) ;;
  ret {| length := length braid;
         ropes := ropes braid;
         crossings := newSet copies |}.

Definition createCrossing (crossing : CrossingObj) (braid : BraidObj)
  : Alloc BraidObj :=
  newBraid <- cloneBraid braid ;;
  ret {| length := length newBraid;
         ropes := ropes newBraid;
         crossings := newSet (crossings newBraid ++ [crossing]) |}.

Definition removeCrossing (row col : Z) (braid : BraidObj) : Alloc BraidObj :=
  newBraid <- cloneBraid braid ;;
  ret {| length := length newBraid;
         ropes := ropes newBraid;
         crossings :=
           newSet (filter
                     (fun crossing =>
                        (rowIndex (fields crossing) =? row)
                        && (colIndex (fields crossing) =? col))
                     (crossings newBraid)) |}.

Definition updateCrossing (crossing : CrossingObj) (braid : BraidObj)
  : Alloc BraidObj :=
  removed <- removeCrossing (rowIndex (fields crossing))
                            (colIndex (fields crossing)) braid ;;
  createCrossing crossing removed.

Definition handleCrossingRequest (braid : BraidObj) (location : Z * Z)
  : Alloc OutcomeObj :=
  let '(col, row) := location in
  if row <? 0 then ret (ThrowsObj (NegativeY row))
  else if col <? 0 then ret (ThrowsObj (NegativeX col))
  else if row >? jsMinus (length braid) 1
  then ret (ThrowsObj (YTooHigh row (length braid)))
  else if col >? jsMinus (ropes braid) 2
  then ret (ThrowsObj (XTooHigh col (ropes braid)))
  else
    let crossingsInRow :=
      filter (fun crossing => rowIndex (fields crossing) =? row)
             (crossings braid) in
    if existsb (fun crossing =>
                  Z.abs (jsMinus (colIndex (fields crossing)) col) =? 1)
               crossingsInRow
    then ret (ReturnsObj None)
    else
      match find (fun crossing => colIndex (fields crossing) =? col)
                 crossingsInRow with
      | None =>
          crossing <- new {| kind := KindS; rowIndex := row; colIndex := col |} ;;
          newBraid <- createCrossing crossing braid ;;
          ret (ReturnsObj (Some newBraid))
      | Some crossingAtLocation =>
          match kind (fields crossingAtLocation) with
          | KindS =>
              crossing <- new {| kind := KindZ; rowIndex := row; colIndex := col |} ;;
              newBraid <- updateCrossing crossing braid ;;
              ret (ReturnsObj (Some newBraid))
          | KindZ =>
              newBraid <- removeCrossing row col braid ;;
              ret (ReturnsObj (Some newBraid))
          end
      end.

End Heap.

(** Forgetting the references: the value a heap braid stands for. *)
Definition eraseSet (s : Heap.JSSet) : list Crossing := map Heap.fields s.

Definition eraseBraid (braid : Heap.BraidObj) : Braid :=
  {| length := Heap.length braid;
     ropes := Heap.ropes braid;
     crossings := eraseSet (Heap.crossings braid) |}.

Definition eraseOutcome (o : Heap.OutcomeObj) : Outcome :=
  match o with
  | Heap.ThrowsObj e => Throws e
  | Heap.ReturnsObj r => Returns (option_map eraseBraid r)
  end.

(** The references of a set are pairwise distinct, as [Set] guarantees. *)
Definition distinctRefs (s : list Heap.CrossingObj) : Prop :=
  NoDup (map Heap.ref s).

(** ** Sample braids *)

Definition crossingS (row col : Z) : Crossing :=
  {| kind := KindS; rowIndex := row; colIndex := col |}.

Definition crossingZ (row col : Z) : Crossing :=
  {| kind := KindZ; rowIndex := row; colIndex := col |}.

(** The default braid with the given crossings, in insertion order. *)
Definition braidOf (cs : list Crossing) : Braid :=
  {| length := 10; ropes := 10; crossings := cs |}.

(** ** Invariants of the data model *)

(** Every crossing lies inside the grid of its braid: a request at its
    cell would pass the four range checks. *)
Definition crossingsInBounds (braid : Braid) : Prop :=
  forall crossing,
    In crossing (crossings braid) ->
    inBounds braid (colIndex crossing) (rowIndex crossing).

(** No two crossings of one row sit in neighbouring columns. *)
Definition noAdjacentPair (cs : list Crossing) : Prop :=
  forall c1 c2,
    In c1 cs -> In c2 cs ->
    rowIndex c1 = rowIndex c2 ->
    Z.abs (colIndex c1 - colIndex c2) <> 1.

(** All the crossings sit in cell [(row, col)]. *)
Definition onlyCell (row col : Z) (cs : list Crossing) : Prop :=
  forall crossing,
    In crossing cs -> rowIndex crossing = row /\ colIndex crossing = col.

(** The references of the objects of a set lie in [lo, hi). *)
Definition refsBetween (lo hi : Heap.Ref) (s : list Heap.CrossingObj) : Prop :=
  forall o, In o s -> (lo <= Heap.ref o < hi)%nat.

(** Bounds of a concrete location, by evaluation. *)
Ltac closed_bounds :=
  unfold inBounds; vm_compute; repeat split; congruence.

(** ** Rounding

    What the proofs need of [roundDouble]: it is the identity up to
    [2 ^ 53], it keeps the sign, it gives a unit only for a unit, and a
    double below an integer is still below the rounded integer. *)

(** Integers up to [2 ^ 53] are doubles. *)
Lemma roundDouble_small z : Z.abs z <= 2 ^ 53 -> roundDouble z = z.
Proof.
  intros Hz; unfold roundDouble.
  destruct (Z.leb_spec (Z.log2 (Z.abs z) - 52) 0) as [_|He]; [reflexivity|].
  assert (Ha : Z.abs z = 2 ^ 53).
  { assert (53 <= Z.log2 (Z.abs z)) by lia.
    assert (Z.log2 (Z.abs z) <= Z.log2 (2 ^ 53)) by (apply Z.log2_le_mono; lia).
    rewrite Z.log2_pow2 in * by lia.
    assert (Hpos : 0 < Z.abs z).
    { destruct (Z.eq_dec (Z.abs z) 0) as [E|]; [rewrite E in *; simpl in *; lia|lia]. }
    pose proof (Z.log2_spec _ Hpos) as [Hlo _].
    assert (Z.log2 (Z.abs z) = 53) by lia.
    rewrite H1 in Hlo. lia. }
  rewrite Ha.
  replace (Z.log2 (2 ^ 53) - 52) with 1 by (rewrite Z.log2_pow2; lia).
  change (2 ^ 53 / 2 ^ 1) with (2 ^ 52).
  change (2 ^ 53 mod 2 ^ 1) with 0.
  change (2 ^ 1 / 2) with 1.
  change (0 <? 1) with true. cbv iota.
  change (2 ^ 52 * 2 ^ 1) with (2 ^ 53).
  rewrite <- Ha. rewrite Z.mul_comm. apply Z.abs_sgn.
Qed.

(** The shape of a rounded value of large magnitude. *)
Lemma roundDouble_large z :
  2 ^ 53 < Z.abs z ->
  exists e q',
    1 <= e /\ e = Z.log2 (Z.abs z) - 52 /\
    Z.abs z / 2 ^ e <= q' <= Z.abs z / 2 ^ e + 1 /\
    roundDouble z = Z.sgn z * (q' * 2 ^ e).
Proof.
  intros Hz; unfold roundDouble.
  assert (Hlog : 53 <= Z.log2 (Z.abs z)).
  { change 53 with (Z.log2 (2 ^ 53)); apply Z.log2_le_mono; lia. }
  destruct (Z.leb_spec (Z.log2 (Z.abs z) - 52) 0) as [He|He]; [lia|].
  exists (Z.log2 (Z.abs z) - 52); eexists; split; [lia|]; split; [reflexivity|].
  split; [|reflexivity].
  destruct (_ <? _); [lia|].
  destruct (_ <? _); [lia|].
  destruct (Z.even _); lia.
Qed.

(** The significand of a large value has 53 bits. *)
Lemma quotient_large z e :
  2 ^ 53 < Z.abs z -> e = Z.log2 (Z.abs z) - 52 ->
  2 ^ 52 <= Z.abs z / 2 ^ e < 2 ^ 53.
Proof.
  intros Hz ->.
  assert (Hpos : 0 < Z.abs z) by lia.
  assert (Hlog : 53 <= Z.log2 (Z.abs z)).
  { change 53 with (Z.log2 (2 ^ 53)); apply Z.log2_le_mono; lia. }
  pose proof (Z.log2_spec _ Hpos) as [Hlo Hhi].
  set (l := Z.log2 (Z.abs z)) in *.
  assert (Hul : 0 < 2 ^ (l - 52)) by (apply Z.pow_pos_nonneg; lia).
  assert (E1 : 2 ^ l = 2 ^ 52 * 2 ^ (l - 52)).
  { rewrite <- Z.pow_add_r by lia; f_equal; lia. }
  assert (E2 : 2 ^ Z.succ l = 2 ^ 53 * 2 ^ (l - 52)).
  { rewrite <- Z.pow_add_r by lia; f_equal; lia. }
  split.
  - apply Z.div_le_lower_bound; [exact Hul|]. rewrite Z.mul_comm, <- E1; exact Hlo.
  - apply Z.div_lt_upper_bound; [exact Hul|]. rewrite Z.mul_comm, <- E2; exact Hhi.
Qed.

Lemma roundDouble_neg z : z < 0 -> roundDouble z < 0.
Proof.
  intros Hneg.
  destruct (Z_le_gt_dec (Z.abs z) (2 ^ 53)) as [Hs|Hl].
  - rewrite roundDouble_small; assumption.
  - destruct (roundDouble_large z) as (e & q' & He & Heq & Hq & ->); [lia|].
    pose proof (quotient_large z e ltac:(lia) Heq) as [Hq52 _].
    rewrite Z.sgn_neg by exact Hneg.
    assert (0 < 2 ^ e) by (apply Z.pow_pos_nonneg; lia).
    assert (0 < 2 ^ 52) by reflexivity.
    nia.
Qed.

Lemma roundDouble_abs_1 z : Z.abs (roundDouble z) = 1 <-> Z.abs z = 1.
Proof.
  destruct (Z_le_gt_dec (Z.abs z) (2 ^ 53)) as [Hs|Hl].
  - rewrite roundDouble_small; tauto.
  - destruct (roundDouble_large z) as (e & q' & He & Heq & Hq & ->); [lia|].
    pose proof (quotient_large z e ltac:(lia) Heq) as [Hq52 _].
    assert (Hul : 2 <= 2 ^ e).
    { change 2 with (2 ^ 1) at 1; apply Z.pow_le_mono_r; lia. }
    assert (H52 : 0 < 2 ^ 52) by reflexivity.
    assert (H53 : 0 < 2 ^ 53) by reflexivity.
    split; [|lia].
    intros Habs; exfalso.
    rewrite !Z.abs_mul in Habs.
    assert (Hs1 : Z.abs (Z.sgn z) = 1) by (destruct z; simpl in *; lia).
    rewrite Hs1 in Habs.
    assert (Z.abs q' = q') by lia.
    assert (Z.abs (2 ^ e) = 2 ^ e) by lia.
    nia.
Qed.

(** A double below an integer stays below the rounded integer. *)
Lemma roundDouble_above x y :
  roundDouble x = x -> 0 <= x <= y -> x <= roundDouble y.
Proof.
  intros Hx [H0 Hxy].
  destruct (Z_le_gt_dec (Z.abs y) (2 ^ 53)) as [Hs|Hl].
  { rewrite roundDouble_small; assumption. }
  destruct (roundDouble_large y) as (e & q' & He & Heq & Hq & Hy); [lia|].
  pose proof (quotient_large y e ltac:(lia) Heq) as [Hq52 Hq53].
  rewrite Hy, Z.sgn_pos, Z.mul_1_l by lia.
  rewrite Z.abs_eq in * by lia.
  assert (Hul : 0 < 2 ^ e) by (apply Z.pow_pos_nonneg; lia).
  destruct (Z_le_gt_dec x (q' * 2 ^ e)) as [Hle|Hgt]; [exact Hle|exfalso].
  pose proof (Z.div_mod y (2 ^ e) ltac:(lia)) as Hdm.
  pose proof (Z.mod_pos_bound y (2 ^ e) Hul) as Hmod.
  set (q := y / 2 ^ e) in *.
  assert (Hxlo : q * 2 ^ e < x) by nia.
  assert (Hxhi : x < (q + 1) * 2 ^ e) by nia.
  assert (Hlogy : Z.log2 y = e + 52) by lia.
  assert (E1 : 2 ^ (e + 52) = 2 ^ 52 * 2 ^ e).
  { rewrite <- Z.pow_add_r by lia; f_equal; lia. }
  assert (Hlogx : Z.log2 x = e + 52).
  { apply Z.log2_unique; [lia|]. split.
    - rewrite E1; nia.
    - pose proof (Z.log2_spec y ltac:(lia)) as [_ Hhi].
      rewrite Hlogy in Hhi; lia. }
  assert (Hxbig : 2 ^ 53 < Z.abs x).
  { rewrite Z.abs_eq by lia.
    assert (2 ^ 53 <= 2 ^ 52 * 2 ^ e).
    { change (2 ^ 53) with (2 ^ 52 * 2 ^ 1).
      apply Z.mul_le_mono_nonneg_l; [lia|].
      apply Z.pow_le_mono_r; lia. }
    nia. }
  destruct (roundDouble_large x Hxbig) as (ex & qx & _ & Hex & _ & Hrx).
  rewrite Z.abs_eq in Hex by lia.
  assert (Hee : ex = e) by lia.
  rewrite Hee in Hrx; clear Hee Hex.
  rewrite Hx, Z.sgn_pos, Z.mul_1_l in Hrx by lia.
  rewrite Hrx in Hxlo, Hxhi.
  apply Z.mul_lt_mono_pos_r in Hxlo; [|exact Hul].
  apply Z.mul_lt_mono_pos_r in Hxhi; [|exact Hul].
  lia.
Qed.

Lemma jsMinus_exact x y : Z.abs (x - y) <= 2 ^ 53 -> jsMinus x y = x - y.
Proof. apply roundDouble_small. Qed.

Lemma jsMinus_unit x y : Z.abs (jsMinus x y) = 1 <-> Z.abs (x - y) = 1.
Proof. apply roundDouble_abs_1. Qed.

(** ** Basic facts about the helpers *)

Lemma cloneBraid_same (braid : Braid) : cloneBraid braid = braid.
Proof.
  destruct braid as [len rp cs]; unfold cloneBraid; simpl; f_equal.
  induction cs as [|c cs IH]; simpl; [reflexivity|].
  rewrite IH; destruct c; reflexivity.
Qed.

Lemma createCrossing_crossings crossing braid :
  createCrossing crossing braid =
  {| length := length braid; ropes := ropes braid;
     crossings := crossings braid ++ [crossing] |}.
Proof. unfold createCrossing; cbv zeta; rewrite cloneBraid_same; reflexivity. Qed.

(** What the filter of [removeCrossing] leaves: the crossings of the
    target cell, and nothing else. *)
Lemma removeCrossing_crossings row col braid :
  removeCrossing row col braid =
  {| length := length braid; ropes := ropes braid;
     crossings := filter (atLocation row col) (crossings braid) |}.
Proof. unfold removeCrossing; cbv zeta; rewrite cloneBraid_same; reflexivity. Qed.

Lemma updateCrossing_crossings crossing braid :
  updateCrossing crossing braid =
  {| length := length braid; ropes := ropes braid;
     crossings :=
       filter (atLocation (rowIndex crossing) (colIndex crossing))
              (crossings braid) ++ [crossing] |}.
Proof.
  unfold updateCrossing.
  rewrite removeCrossing_crossings, createCrossing_crossings; reflexivity.
Qed.

Lemma find_filter {A : Type} (p q : A -> bool) (l : list A) :
  find p (filter q l) = find (fun x => q x && p x) l.
Proof.
  induction l as [|x l IH]; simpl; [reflexivity|].
  destruct (q x); simpl; [destruct (p x)|]; auto.
Qed.

Lemma existsb_filter {A : Type} (p q : A -> bool) (l : list A) :
  existsb p (filter q l) = existsb (fun x => q x && p x) l.
Proof.
  induction l as [|x l IH]; simpl; [reflexivity|].
  destruct (q x); simpl; [destruct (p x)|]; auto.
Qed.

(** The adjacency test of the handler decides [adjacentConflict]. *)
Lemma adjacency_test_spec braid col row :
  existsb (fun crossing => Z.abs (jsMinus (colIndex crossing) col) =? 1)
          (filter (fun crossing => rowIndex crossing =? row) (crossings braid))
  = true <-> adjacentConflict braid col row.
Proof.
  unfold adjacentConflict; rewrite existsb_exists; split.
  - intros (c & Hin & Hadj); apply filter_In in Hin as [Hin Hrow].
    apply Z.eqb_eq, jsMinus_unit in Hadj.
    exists c; repeat split; [assumption|lia|assumption].
  - intros (c & Hin & Hrow & Hadj); exists c; split.
    + apply filter_In; split; [assumption|lia].
    + apply Z.eqb_eq, jsMinus_unit, Hadj.
Qed.

(** The lookup of the handler is [crossingAt]. *)
Lemma lookup_is_crossingAt braid col row :
  find (fun crossing => colIndex crossing =? col)
       (filter (fun crossing => rowIndex crossing =? row) (crossings braid))
  = crossingAt braid col row.
Proof. unfold crossingAt; rewrite find_filter; reflexivity. Qed.

(** Past the four range checks the handler is the adjacency test followed
    by the three-way dispatch. *)
Lemma handleCrossingRequest_inBounds braid col row :
  inBounds braid col row ->
  handleCrossingRequest braid (col, row) =
  if existsb (fun crossing => Z.abs (jsMinus (colIndex crossing) col) =? 1)
             (filter (fun crossing => rowIndex crossing =? row)
                     (crossings braid))
  then Returns None
  else match crossingAt braid col row with
       | None =>
           Returns (Some (createCrossing
                            {| kind := KindS; rowIndex := row; colIndex := col |}
                            braid))
       | Some crossingAtLocation =>
           match kind crossingAtLocation with
           | KindS =>
               Returns (Some (updateCrossing
                                {| kind := KindZ; rowIndex := row; colIndex := col |}
                                braid))
           | KindZ => Returns (Some (removeCrossing row col braid))
           end
       end.
Proof.
  intros [[Hr0 Hr1] [Hc0 Hc1]]; unfold handleCrossingRequest.
  destruct (Z.ltb_spec row 0); [lia|].
  destruct (Z.ltb_spec col 0); [lia|].
  destruct (Z.gtb_spec row (jsMinus (length braid) 1)); [lia|].
  destruct (Z.gtb_spec col (jsMinus (ropes braid) 2)); [lia|].
  rewrite lookup_is_crossingAt; reflexivity.
Qed.

Lemma no_conflict_test braid col row :
  ~ adjacentConflict braid col row ->
  existsb (fun crossing => Z.abs (jsMinus (colIndex crossing) col) =? 1)
          (filter (fun crossing => rowIndex crossing =? row) (crossings braid))
  = false.
Proof.
  intros Hno; apply not_true_is_false; intros Ht.
  apply Hno, adjacency_test_spec, Ht.
Qed.

Lemma atLocation_true row col crossing :
  atLocation row col crossing = true <->
  rowIndex crossing = row /\ colIndex crossing = col.
Proof. unfold atLocation; rewrite andb_true_iff; lia. Qed.

Lemma crossingAt_None braid col row :
  crossingAt braid col row = None <->
  forall crossing,
    In crossing (crossings braid) ->
    ~ (rowIndex crossing = row /\ colIndex crossing = col).
Proof.
  unfold crossingAt; split.
  - intros Hnone c Hin Hat.
    apply atLocation_true in Hat.
    rewrite (find_none _ _ Hnone c Hin) in Hat; discriminate.
  - intros Hall; destruct (find _ _) as [c|] eqn:Hfind; [|reflexivity].
    apply find_some in Hfind as [Hin Hat].
    apply atLocation_true in Hat; elim (Hall c Hin Hat).
Qed.

Lemma crossingAt_Some braid col row crossing :
  crossingAt braid col row = Some crossing ->
  In crossing (crossings braid) /\
  rowIndex crossing = row /\ colIndex crossing = col.
Proof.
  unfold crossingAt; intros Hfind.
  apply find_some in Hfind as [Hin Hat].
  apply atLocation_true in Hat; tauto.
Qed.

(** A location given by doubles that lies in rows [0 .. length - 1] and
    columns [0 .. ropes - 2] passes the range checks. *)
Lemma inBounds_of_exact braid col row :
  roundDouble row = row ->
  roundDouble col = col ->
  0 <= row <= length braid - 1 ->
  0 <= col <= ropes braid - 2 ->
  inBounds braid col row.
Proof.
  intros Hrow Hcol Hr Hc; unfold inBounds, jsMinus; split; split;
    try lia; apply roundDouble_above; assumption.
Qed.

(** With dimensions up to [2 ^ 53] the range checks are the exact ones. *)
Lemma inBounds_exact_iff braid col row :
  Z.abs (length braid - 1) <= 2 ^ 53 ->
  Z.abs (ropes braid - 2) <= 2 ^ 53 ->
  inBounds braid col row <->
  0 <= row <= length braid - 1 /\ 0 <= col <= ropes braid - 2.
Proof.
  intros Hlen Hropes; unfold inBounds.
  rewrite !jsMinus_exact by assumption; tauto.
Qed.

(** ** The three branches of the dispatch, as the code runs them *)

Section Dispatch.

Variable braid : Braid.
Variables col row : Z.
Hypothesis Hbounds : inBounds braid col row.
Hypothesis Hfree : ~ adjacentConflict braid col row.

Lemma dispatch_empty :
  crossingAt braid col row = None ->
  handleCrossingRequest braid (col, row) =
  Returns (Some {| length := length braid; ropes := ropes braid;
                   crossings :=
                     crossings braid
                     ++ [{| kind := KindS; rowIndex := row; colIndex := col |}] |}).
Proof.
  intros Hcell.
  rewrite (handleCrossingRequest_inBounds _ _ _ Hbounds).
  rewrite (no_conflict_test _ _ _ Hfree), Hcell.
  rewrite createCrossing_crossings; reflexivity.
Qed.

Lemma dispatch_S crossing :
  crossingAt braid col row = Some crossing ->
  kind crossing = KindS ->
  handleCrossingRequest braid (col, row) =
  Returns (Some {| length := length braid; ropes := ropes braid;
                   crossings :=
                     filter (atLocation row col) (crossings braid)
                     ++ [{| kind := KindZ; rowIndex := row; colIndex := col |}] |}).
Proof.
  intros Hcell Hkind.
  rewrite (handleCrossingRequest_inBounds _ _ _ Hbounds).
  rewrite (no_conflict_test _ _ _ Hfree), Hcell, Hkind.
  rewrite updateCrossing_crossings; reflexivity.
Qed.

Lemma dispatch_Z crossing :
  crossingAt braid col row = Some crossing ->
  kind crossing = KindZ ->
  handleCrossingRequest braid (col, row) =
  Returns (Some {| length := length braid; ropes := ropes braid;
                   crossings := filter (atLocation row col) (crossings braid) |}).
Proof.
  intros Hcell Hkind.
  rewrite (handleCrossingRequest_inBounds _ _ _ Hbounds).
  rewrite (no_conflict_test _ _ _ Hfree), Hcell, Hkind.
  rewrite removeCrossing_crossings; reflexivity.
Qed.

End Dispatch.

(** Every braid the handler returns is one of the three above. *)
Lemma handleCrossingRequest_returns_braid braid col row braid' :
  handleCrossingRequest braid (col, row) = Returns (Some braid') ->
  inBounds braid col row /\
  ~ adjacentConflict braid col row /\
  length braid' = length braid /\
  ropes braid' = ropes braid /\
  ((crossingAt braid col row = None /\
    crossings braid' =
      crossings braid ++ [{| kind := KindS; rowIndex := row; colIndex := col |}])
   \/ (exists crossing,
         crossingAt braid col row = Some crossing /\ kind crossing = KindS /\
         crossings braid' =
           filter (atLocation row col) (crossings braid)
           ++ [{| kind := KindZ; rowIndex := row; colIndex := col |}])
   \/ (exists crossing,
         crossingAt braid col row = Some crossing /\ kind crossing = KindZ /\
         crossings braid' = filter (atLocation row col) (crossings braid))).
Proof.
  intros Hret.
  assert (Hbounds : inBounds braid col row).
  { unfold handleCrossingRequest in Hret; unfold inBounds.
    destruct (Z.ltb_spec row 0); [discriminate|].
    destruct (Z.ltb_spec col 0); [discriminate|].
    destruct (Z.gtb_spec row (jsMinus (length braid) 1)); [discriminate|].
    destruct (Z.gtb_spec col (jsMinus (ropes braid) 2)); [discriminate|].
    lia. }
  split; [assumption|].
  rewrite (handleCrossingRequest_inBounds _ _ _ Hbounds) in Hret.
  destruct (existsb _ _) eqn:Htest; [discriminate|].
  assert (Hfree : ~ adjacentConflict braid col row).
  { intros Hc; apply adjacency_test_spec in Hc; congruence. }
  split; [assumption|].
  destruct (crossingAt braid col row) as [c|] eqn:Hcell.
  - destruct (kind c) eqn:Hkind.
    + rewrite updateCrossing_crossings in Hret.
      injection Hret as <-; simpl; repeat split.
      right; left; exists c; auto.
    + rewrite removeCrossing_crossings in Hret.
      injection Hret as <-; simpl; repeat split.
      right; right; exists c; auto.
  - rewrite createCrossing_crossings in Hret.
    injection Hret as <-; simpl; auto.
Qed.

(** ** Range errors *)

Lemma handleCrossingRequest_throws_iff braid col row e :
  handleCrossingRequest braid (col, row) = Throws e <->
  (row < 0 /\ e = NegativeY row)
  \/ (0 <= row /\ col < 0 /\ e = NegativeX col)
  \/ (0 <= row /\ 0 <= col /\ row > jsMinus (length braid) 1
      /\ e = YTooHigh row (length braid))
  \/ (0 <= row /\ 0 <= col /\ row <= jsMinus (length braid) 1
      /\ col > jsMinus (ropes braid) 2 /\ e = XTooHigh col (ropes braid)).
Proof.
  destruct (Z.lt_ge_cases row 0) as [Hr|Hr];
    [|destruct (Z.lt_ge_cases col 0) as [Hc|Hc];
      [|destruct (Z_gt_le_dec row (jsMinus (length braid) 1)) as [Hr'|Hr'];
        [|destruct (Z_gt_le_dec col (jsMinus (ropes braid) 2)) as [Hc'|Hc']]]].
  5: { assert (Hb : inBounds braid col row) by (unfold inBounds; lia).
       rewrite (handleCrossingRequest_inBounds _ _ _ Hb).
       split; [|lia].
       destruct (existsb _ _); [discriminate|].
       destruct (crossingAt braid col row) as [c|]; [|discriminate].
       destruct (kind c); discriminate. }
  all: unfold handleCrossingRequest.
  - destruct (Z.ltb_spec row 0); [|lia].
    split; [intros He; injection He as <-; left; split; [lia|reflexivity]|].
    intros [[_ ->]|[?|[?|?]]]; [reflexivity|lia..].
  - destruct (Z.ltb_spec row 0); [lia|].
    destruct (Z.ltb_spec col 0); [|lia].
    split; [intros He; injection He as <-; right; left; repeat split; lia|].
    intros [?|[(_ & _ & ->)|[?|?]]]; [lia|reflexivity|lia..].
  - destruct (Z.ltb_spec row 0); [lia|].
    destruct (Z.ltb_spec col 0); [lia|].
    destruct (Z.gtb_spec row (jsMinus (length braid) 1)); [|lia].
    split; [intros He; injection He as <-; right; right; left; repeat split; lia|].
    intros [?|[?|[(_ & _ & _ & ->)|?]]]; [lia|lia|reflexivity|lia].
  - destruct (Z.ltb_spec row 0); [lia|].
    destruct (Z.ltb_spec col 0); [lia|].
    destruct (Z.gtb_spec row (jsMinus (length braid) 1)); [lia|].
    destruct (Z.gtb_spec col (jsMinus (ropes braid) 2)); [|lia].
    split; [intros He; injection He as <-; right; right; right; repeat split; lia|].
    intros [?|[?|[?|(_ & _ & _ & _ & ->)]]]; [lia|lia|lia|reflexivity].
Qed.

(** Claim C6 as worded, with [length - 1] the exact difference, fails
    where the double difference rounds up: on the braid of length
    [2 ^ 54 + 4] the row index [2 ^ 54 + 4] is above [length - 1], yet
    [length - 1] rounds to [length], the check does not fire and the
    handler returns a braid with an [S] crossing in that row. *)
Lemma handleCrossingRequest_range_errors_counterexample :
  2 ^ 54 + 4
  > length {| length := 2 ^ 54 + 4; ropes := 10; crossings := [] |} - 1
  /\ handleCrossingRequest
       {| length := 2 ^ 54 + 4; ropes := 10; crossings := [] |}
       (0, 2 ^ 54 + 4)
     = Returns
         (Some {| length := 2 ^ 54 + 4; ropes := 10;
                  crossings :=
                    [{| kind := KindS; rowIndex := 2 ^ 54 + 4;
                        colIndex := 0 |}] |}).
Proof. split; [simpl; lia|vm_compute; reflexivity]. Qed.

(** Claim C6, amended.  The handler throws exactly when [row < 0],
    [col < 0], [row > length - 1] or [col > ropes - 2], where the two
    differences are the doubles the code computes ([jsMinus]); the checks
    run in that order, so the first one that holds names the error; and
    whether and what it throws does not depend on the crossings of the
    braid.  The double differences are the exact ones whenever their
    magnitude is at most [2 ^ 53]. *)
Theorem handleCrossingRequest_range_errors (braid : Braid) (col row : Z) :
  (row < 0 ->
   handleCrossingRequest braid (col, row) = Throws (NegativeY row)) /\
  (0 <= row -> col < 0 ->
   handleCrossingRequest braid (col, row) = Throws (NegativeX col)) /\
  (0 <= row -> 0 <= col -> row > jsMinus (length braid) 1 ->
   handleCrossingRequest braid (col, row)
   = Throws (YTooHigh row (length braid))) /\
  (0 <= row -> 0 <= col -> row <= jsMinus (length braid) 1 ->
   col > jsMinus (ropes braid) 2 ->
   handleCrossingRequest braid (col, row)
   = Throws (XTooHigh col (ropes braid))) /\
  ((exists e, handleCrossingRequest braid (col, row) = Throws e) <->
   row < 0 \/ col < 0 \/ row > jsMinus (length braid) 1
   \/ col > jsMinus (ropes braid) 2) /\
  (forall (others : list Crossing) (e : RangeError),
     handleCrossingRequest braid (col, row) = Throws e <->
     handleCrossingRequest
       {| length := length braid; ropes := ropes braid; crossings := others |}
       (col, row) = Throws e) /\
  (Z.abs (length braid - 1) <= 2 ^ 53 ->
   jsMinus (length braid) 1 = length braid - 1) /\
  (Z.abs (ropes braid - 2) <= 2 ^ 53 ->
   jsMinus (ropes braid) 2 = ropes braid - 2).
Proof.
  split; [|split; [|split; [|split; [|split; [|split; [|split]]]]]].
  - intros; apply handleCrossingRequest_throws_iff; auto.
  - intros; apply handleCrossingRequest_throws_iff; auto.
  - intros; apply handleCrossingRequest_throws_iff; right; right; left; auto.
  - intros; apply handleCrossingRequest_throws_iff; right; right; right; auto 6.
  - split.
    + intros [e He]; apply handleCrossingRequest_throws_iff in He; lia.
    + intros Hout.
      destruct (Z.lt_ge_cases row 0) as [Hr|Hr].
      { exists (NegativeY row); apply handleCrossingRequest_throws_iff; auto. }
      destruct (Z.lt_ge_cases col 0) as [Hc|Hc].
      { exists (NegativeX col); apply handleCrossingRequest_throws_iff; auto. }
      destruct (Z_gt_le_dec row (jsMinus (length braid) 1)) as [Hr'|Hr'].
      { exists (YTooHigh row (length braid)).
        apply handleCrossingRequest_throws_iff; right; right; left; auto. }
      exists (XTooHigh col (ropes braid)).
      apply handleCrossingRequest_throws_iff; right; right; right.
      repeat split; try assumption; lia.
  - intros others e; split; intros He;
      apply handleCrossingRequest_throws_iff in He;
      apply handleCrossingRequest_throws_iff; exact He.
  - apply jsMinus_exact.
  - apply jsMinus_exact.
Qed.

Lemma handleCrossingRequest_range_errors_witness :
  handleCrossingRequest createBraid (0, 10) = Throws (YTooHigh 10 10).
Proof.
  apply (proj1 (proj2 (proj2 (handleCrossingRequest_range_errors createBraid 0 10))));
    vm_compute; congruence.
Defined.

(** The scenario of the specification: row 10 of the default braid. *)
Example row_too_large_message :
  exists e,
    handleCrossingRequest createBraid (0, 10) = Throws e /\
    errorMessage showZ e
    = "y index of 10 is too high for braid with height: 10"%string.
Proof. exists (YTooHigh 10 10); split; reflexivity. Qed.

(** ** Rejection of adjacent crossings *)

(** Claim C5.  At an in-bounds location the handler returns [null] as soon
    as a crossing of the same row sits one column away, and only then: a
    crossing of another row never causes the rejection, whatever its
    column. *)
Theorem handleCrossingRequest_rejects_adjacent (braid : Braid) (col row : Z) :
  inBounds braid col row ->
  (handleCrossingRequest braid (col, row) = Returns None <->
   exists crossing,
     In crossing (crossings braid) /\
     rowIndex crossing = row /\
     Z.abs (colIndex crossing - col) = 1)
  /\ ((forall crossing,
         In crossing (crossings braid) -> rowIndex crossing <> row) ->
      handleCrossingRequest braid (col, row) <> Returns None).
Proof.
  intros Hbounds.
  assert (Hiff : handleCrossingRequest braid (col, row) = Returns None <->
                 adjacentConflict braid col row).
  { rewrite (handleCrossingRequest_inBounds _ _ _ Hbounds).
    rewrite <- (adjacency_test_spec braid col row).
    destruct (existsb _ _); [tauto|].
    split; [|discriminate].
    destruct (crossingAt braid col row) as [c|]; [|discriminate].
    destruct (kind c); discriminate. }
  split; [exact Hiff|].
  intros Hrows Hnull; apply Hiff in Hnull.
  destruct Hnull as (c & Hin & Hrow & _); exact (Hrows c Hin Hrow).
Qed.

Lemma handleCrossingRequest_rejects_adjacent_witness :
  inBounds (braidOf [crossingS 2 3; crossingS 5 4]) 4 2 /\
  (handleCrossingRequest (braidOf [crossingS 2 3; crossingS 5 4]) (4, 2)
   = Returns None <->
   exists crossing,
     In crossing (crossings (braidOf [crossingS 2 3; crossingS 5 4])) /\
     rowIndex crossing = 2 /\
     Z.abs (colIndex crossing - 4) = 1).
Proof.
  assert (Hb : inBounds (braidOf [crossingS 2 3; crossingS 5 4]) 4 2)
    by (closed_bounds).
  split; [exact Hb|].
  exact (proj1 (handleCrossingRequest_rejects_adjacent _ 4 2 Hb)).
Defined.

(** ** Creating a crossing in an empty cell *)

(** Claim C7.  At an in-bounds location whose cell holds no crossing and
    whose row has no crossing one column away, the handler returns the
    braid with the same crossings followed by one new [S] crossing at the
    requested cell. *)
Theorem handleCrossingRequest_creates_S (braid : Braid) (col row : Z) :
  inBounds braid col row ->
  (forall crossing,
     In crossing (crossings braid) ->
     ~ (rowIndex crossing = row /\ colIndex crossing = col)) ->
  ~ adjacentConflict braid col row ->
  handleCrossingRequest braid (col, row) =
  Returns (Some {| length := length braid;
                   ropes := ropes braid;
                   crossings :=
                     crossings braid
                     ++ [{| kind := KindS; rowIndex := row; colIndex := col |}] |}).
Proof.
  intros Hbounds Hcell Hfree.
  apply dispatch_empty; try assumption.
  apply crossingAt_None, Hcell.
Qed.

Lemma handleCrossingRequest_creates_S_witness :
  handleCrossingRequest (braidOf [crossingZ 2 5; crossingS 3 4]) (3, 2) =
  Returns (Some (braidOf [crossingZ 2 5; crossingS 3 4; crossingS 2 3])).
Proof.
  apply (handleCrossingRequest_creates_S (braidOf [crossingZ 2 5; crossingS 3 4]) 3 2).
  - closed_bounds.
  - simpl; intros c [<-|[<-|[]]]; simpl; lia.
  - intros (c & Hin & Hrow & Hadj); simpl in Hin.
    destruct Hin as [<-|[<-|[]]]; simpl in *; lia.
Defined.

(** ** Frame: the dimensions *)

(** Claim C8.  Whenever the handler returns a braid, its [length] and
    [ropes] are those of the input braid. *)
Theorem handleCrossingRequest_keeps_dimensions
  (braid braid' : Braid) (col row : Z) :
  handleCrossingRequest braid (col, row) = Returns (Some braid') ->
  length braid' = length braid /\ ropes braid' = ropes braid.
Proof.
  intros Hret.
  apply handleCrossingRequest_returns_braid in Hret; tauto.
Qed.

Lemma handleCrossingRequest_keeps_dimensions_witness :
  length (braidOf [crossingS 2 3; crossingZ 2 3]) = length (braidOf [crossingS 2 3])
  /\ ropes (braidOf [crossingS 2 3; crossingZ 2 3]) = ropes (braidOf [crossingS 2 3]).
Proof.
  apply (handleCrossingRequest_keeps_dimensions
           (braidOf [crossingS 2 3]) (braidOf [crossingS 2 3; crossingZ 2 3]) 3 2).
  reflexivity.
Defined.

(** ** Construction *)

(** Claim C9.  [createBraid()] has [length = 10], [ropes = 10] and no
    crossing. *)
Theorem createBraid_default :
  length createBraid = 10 /\ ropes createBraid = 10 /\ crossings createBraid = [].
Proof. repeat split. Qed.

(** ** What the filter of [removeCrossing] does to the cycle

    The filter keeps the crossings of the target cell and drops all the
    others, so neither [removeCrossing] nor [updateCrossing] (which goes
    through it) empties the cell. *)

Lemma filter_atLocation_none braid col row :
  crossingAt braid col row = None ->
  filter (atLocation row col) (crossings braid) = [].
Proof.
  unfold crossingAt; induction (crossings braid) as [|c cs IH]; simpl;
    [reflexivity|].
  destruct (atLocation row col c); [discriminate|exact IH].
Qed.

Lemma find_append {A : Type} (p : A -> bool) (l l' : list A) :
  find p (l ++ l') =
  match find p l with
  | Some x => Some x
  | None => find p l'
  end.
Proof.
  induction l as [|x l IH]; simpl; [reflexivity|].
  destruct (p x); [reflexivity|exact IH].
Qed.

Lemma atLocation_here k row col :
  atLocation row col {| kind := k; rowIndex := row; colIndex := col |} = true.
Proof. unfold atLocation; simpl; rewrite !Z.eqb_refl; reflexivity. Qed.

(** A braid that has crossings in one cell only has no adjacent conflict
    at that cell. *)
Lemma single_cell_no_conflict braid col row :
  (forall crossing,
     In crossing (crossings braid) -> atLocation row col crossing = true) ->
  ~ adjacentConflict braid col row.
Proof.
  intros Hall (c & Hin & _ & Hadj).
  apply Hall, atLocation_true in Hin; lia.
Qed.

(** Once the handler has returned a braid, the requested cell holds a
    crossing: no request empties a cell. *)
Lemma handleCrossingRequest_cell_stays_occupied braid col row braid' :
  handleCrossingRequest braid (col, row) = Returns (Some braid') ->
  exists crossing, crossingAt braid' col row = Some crossing.
Proof.
  intros Hret.
  apply handleCrossingRequest_returns_braid in Hret
    as (_ & _ & _ & _ & [[_ Hcs]|[(c & Hc & _ & Hcs)|(c & Hc & _ & Hcs)]]).
  - destruct (crossingAt braid' col row) as [c'|] eqn:Hcell; [eauto|].
    exfalso; rewrite crossingAt_None in Hcell.
    apply (Hcell {| kind := KindS; rowIndex := row; colIndex := col |});
      [rewrite Hcs; apply in_or_app; right; left; reflexivity|simpl; auto].
  - destruct (crossingAt braid' col row) as [c'|] eqn:Hcell; [eauto|].
    exfalso; rewrite crossingAt_None in Hcell.
    apply (Hcell {| kind := KindZ; rowIndex := row; colIndex := col |});
      [rewrite Hcs; apply in_or_app; right; left; reflexivity|simpl; auto].
  - destruct (crossingAt braid' col row) as [c'|] eqn:Hcell; [eauto|].
    exfalso; rewrite crossingAt_None in Hcell.
    apply crossingAt_Some in Hc as (Hin & Hrow & Hcol).
    apply (Hcell c); [|auto].
    rewrite Hcs; apply filter_In; split; [assumption|].
    apply atLocation_true; auto.
Qed.

(** From an empty cell, three requests in a row leave the braid with three
    crossings in the cell, [S], [Z], [Z], and with nothing else. *)
Lemma three_requests_from_empty braid col row :
  inBounds braid col row ->
  ~ adjacentConflict braid col row ->
  crossingAt braid col row = None ->
  exists braid1 braid2 braid3,
    handleCrossingRequest braid (col, row) = Returns (Some braid1) /\
    handleCrossingRequest braid1 (col, row) = Returns (Some braid2) /\
    handleCrossingRequest braid2 (col, row) = Returns (Some braid3) /\
    crossings braid3 =
      [ {| kind := KindS; rowIndex := row; colIndex := col |};
        {| kind := KindZ; rowIndex := row; colIndex := col |};
        {| kind := KindZ; rowIndex := row; colIndex := col |} ].
Proof.
  intros Hbounds Hfree Hcell.
  set (s := {| kind := KindS; rowIndex := row; colIndex := col |}).
  set (z := {| kind := KindZ; rowIndex := row; colIndex := col |}).
  set (b1 := {| length := length braid; ropes := ropes braid;
                crossings := crossings braid ++ [s] |}).
  set (b2 := {| length := length braid; ropes := ropes braid;
                crossings := [s; z] |}).
  set (b3 := {| length := length braid; ropes := ropes braid;
                crossings := [s; z; z] |}).
  exists b1, b2, b3; repeat split.
  - apply dispatch_empty; assumption.
  - assert (Hfree1 : ~ adjacentConflict b1 col row).
    { intros (c & Hin & Hrow & Hadj); simpl in Hin.
      apply in_app_or in Hin as [Hin|[<-|[]]]; [|simpl in Hadj; lia].
      apply Hfree; exists c; auto. }
    assert (Hcell1 : crossingAt b1 col row = Some s).
    { unfold crossingAt; simpl. rewrite find_append.
      fold (crossingAt braid col row); rewrite Hcell; simpl.
      unfold s at 1; rewrite atLocation_here; reflexivity. }
    rewrite (dispatch_S b1 col row Hbounds Hfree1 s Hcell1 eq_refl); simpl.
    rewrite filter_app, (filter_atLocation_none _ _ _ Hcell); simpl.
    unfold s at 1; rewrite atLocation_here; reflexivity.
  - assert (Hfree2 : ~ adjacentConflict b2 col row).
    { apply single_cell_no_conflict; simpl.
      intros c [<-|[<-|[]]]; apply atLocation_here. }
    assert (Hcell2 : crossingAt b2 col row = Some s).
    { unfold crossingAt; simpl.
      unfold s at 1; rewrite atLocation_here; reflexivity. }
    rewrite (dispatch_S b2 col row Hbounds Hfree2 s Hcell2 eq_refl); simpl.
    unfold s at 1, z at 1; rewrite !atLocation_here; reflexivity.
Qed.

(** Claim C1, checked on the code at the default braid and cell
    [(colIndex = 3, rowIndex = 2)]: the three requests succeed, but the
    third braid has the crossings [S], [Z], [Z] in the cell instead of the
    empty crossing set it started from. *)
Theorem three_requests_do_not_cycle :
  handleCrossingRequest createBraid (3, 2)
  = Returns (Some (braidOf [crossingS 2 3])) /\
  handleCrossingRequest (braidOf [crossingS 2 3]) (3, 2)
  = Returns (Some (braidOf [crossingS 2 3; crossingZ 2 3])) /\
  handleCrossingRequest (braidOf [crossingS 2 3; crossingZ 2 3]) (3, 2)
  = Returns (Some (braidOf [crossingS 2 3; crossingZ 2 3; crossingZ 2 3])) /\
  crossings (braidOf [crossingS 2 3; crossingZ 2 3; crossingZ 2 3])
  <> crossings createBraid.
Proof. repeat split; discriminate. Qed.

(** Claim C2, checked on the code at the braid with a [Z] crossing at
    [(2, 3)] and an [S] crossing at [(5, 5)], request at
    [(colIndex = 3, rowIndex = 2)]: the returned braid still has the [Z]
    crossing in the cell and has lost the crossing of the other cell, as
    [removeCrossing] itself does; the documented removal gives the
    opposite. *)
Theorem request_on_Z_keeps_the_crossing :
  inBounds (braidOf [crossingZ 2 3; crossingS 5 5]) 3 2 /\
  ~ adjacentConflict (braidOf [crossingZ 2 3; crossingS 5 5]) 3 2 /\
  handleCrossingRequest (braidOf [crossingZ 2 3; crossingS 5 5]) (3, 2)
  = Returns (Some (braidOf [crossingZ 2 3])) /\
  removeCrossing 2 3 (braidOf [crossingZ 2 3; crossingS 5 5])
  = braidOf [crossingZ 2 3] /\
  removeCrossing_documented 2 3 (braidOf [crossingZ 2 3; crossingS 5 5])
  = braidOf [crossingS 5 5].
Proof.
  split; [closed_bounds|]; split.
  - intros (c & Hin & Hrow & Hadj); simpl in Hin.
    destruct Hin as [<-|[<-|[]]]; simpl in *; lia.
  - repeat split.
Qed.

(** Claim C3, checked on the code at the braid with an [S] crossing at
    [(2, 3)] and an [S] crossing at [(5, 5)], request at
    [(colIndex = 3, rowIndex = 2)]: the returned braid has the new [Z]
    crossing next to the old [S] crossing, two crossings in the cell, and
    has lost the crossing of the other cell. *)
Theorem request_on_S_keeps_the_S :
  inBounds (braidOf [crossingS 2 3; crossingS 5 5]) 3 2 /\
  ~ adjacentConflict (braidOf [crossingS 2 3; crossingS 5 5]) 3 2 /\
  handleCrossingRequest (braidOf [crossingS 2 3; crossingS 5 5]) (3, 2)
  = Returns (Some (braidOf [crossingS 2 3; crossingZ 2 3])).
Proof.
  split; [closed_bounds|]; split.
  - intros (c & Hin & Hrow & Hadj); simpl in Hin.
    destruct Hin as [<-|[<-|[]]]; simpl in *; lia.
  - repeat split.
Qed.

(** Claim C4, checked on the code at the braid whose only crossing is an
    [S] at [(2, 3)], request at [(colIndex = 3, rowIndex = 2)]: the input
    has one crossing per cell, the returned braid has two in cell
    [(2, 3)]. *)
Theorem request_on_S_duplicates_the_cell :
  uniquePerCell (crossings (braidOf [crossingS 2 3])) /\
  handleCrossingRequest (braidOf [crossingS 2 3]) (3, 2)
  = Returns (Some (braidOf [crossingS 2 3; crossingZ 2 3])) /\
  ~ uniquePerCell (crossings (braidOf [crossingS 2 3; crossingZ 2 3])).
Proof.
  unfold uniquePerCell; simpl; repeat split.
  - constructor; [intros []|constructor].
  - intros Hnd; inversion Hnd as [|x l Hnotin _]; subst.
    apply Hnotin; left; reflexivity.
Qed.

(** The two branches that do not go through [updateCrossing] keep one
    crossing per cell. *)
Lemma cells_filter_NoDup (p : Crossing -> bool) (cs : list Crossing) :
  uniquePerCell cs -> uniquePerCell (filter p cs).
Proof.
  unfold uniquePerCell, cells; induction cs as [|c cs IH]; simpl;
    [intros; constructor|].
  intros Hnd; inversion Hnd as [|x l Hnotin Hrest]; subst.
  destruct (p c); simpl; [constructor|]; auto.
  intros Hin; apply Hnotin.
  apply in_map_iff in Hin as (c' & Heq & Hin').
  apply filter_In in Hin' as [Hin' _].
  apply in_map_iff; exists c'; auto.
Qed.

Lemma uniquePerCell_kept_outside_S braid col row braid' :
  uniquePerCell (crossings braid) ->
  handleCrossingRequest braid (col, row) = Returns (Some braid') ->
  (forall crossing,
     crossingAt braid col row = Some crossing -> kind crossing = KindZ) ->
  uniquePerCell (crossings braid').
Proof.
  intros Huniq Hret HnotS.
  apply handleCrossingRequest_returns_braid in Hret
    as (_ & _ & _ & _ & [[Hcell Hcs]|[(c & Hc & Hkind & _)|(c & _ & _ & Hcs)]]).
  - rewrite Hcs; unfold uniquePerCell, cells in *.
    rewrite map_app; simpl.
    apply NoDup_app; [exact Huniq|constructor; [intros []|constructor]|].
    intros cell Hin [<-|[]].
    apply in_map_iff in Hin as (c & Heq & Hin).
    rewrite crossingAt_None in Hcell.
    apply (Hcell c Hin); injection Heq; auto.
  - rewrite (HnotS c Hc) in Hkind; discriminate.
  - rewrite Hcs; apply cells_filter_NoDup, Huniq.
Qed.

(** ** The list model against the heap model

    Every set the module builds holds objects allocated during the call,
    each once, so [new Set(...)] never drops a member and the outcome of
    the heap model, with the references forgotten, is the outcome of the
    list model. *)

Lemma newSet_acc (items acc : list Heap.CrossingObj) :
  distinctRefs (acc ++ items) ->
  fold_left Heap.setAdd items acc = acc ++ items.
Proof.
  revert acc; induction items as [|o items IH]; intros acc Hnd; simpl.
  - symmetry; apply app_nil_r.
  - assert (Hnew : Heap.setHas acc o = false).
    { apply not_true_is_false; intros Hhas.
      apply existsb_exists in Hhas as (m & Hin & Heq).
      apply Nat.eqb_eq in Heq.
      unfold distinctRefs in Hnd; rewrite map_app in Hnd; simpl in Hnd.
      apply NoDup_remove_2 in Hnd; apply Hnd.
      apply in_or_app; left; rewrite <- Heq; apply in_map, Hin. }
    unfold Heap.setAdd at 2; rewrite Hnew.
    rewrite IH; rewrite <- app_assoc; [reflexivity|exact Hnd].
Qed.

Lemma newSet_distinct (items : list Heap.CrossingObj) :
  distinctRefs items -> Heap.newSet items = items.
Proof. intros Hnd; unfold Heap.newSet; rewrite newSet_acc; auto. Qed.

Lemma distinctRefs_filter (p : Heap.CrossingObj -> bool) items :
  distinctRefs items -> distinctRefs (filter p items).
Proof.
  unfold distinctRefs; induction items as [|o items IH]; simpl;
    [intros; constructor|].
  intros Hnd; inversion Hnd as [|x l Hnotin Hrest]; subst.
  destruct (p o); simpl; [constructor|]; auto.
  intros Hin; apply Hnotin.
  apply in_map_iff in Hin as (o' & Heq & Hin').
  apply filter_In in Hin' as [Hin' _].
  apply in_map_iff; exists o'; auto.
Qed.

Lemma map_filter_through {A B : Type} (f : A -> B) (p : B -> bool) (l : list A) :
  map f (filter (fun a => p (f a)) l) = filter p (map f l).
Proof.
  induction l as [|a l IH]; simpl; [reflexivity|].
  destruct (p (f a)); simpl; rewrite IH; reflexivity.
Qed.

Lemma existsb_map_through {A B : Type} (f : A -> B) (p : B -> bool) (l : list A) :
  existsb (fun a => p (f a)) l = existsb p (map f l).
Proof.
  induction l as [|a l IH]; simpl; [reflexivity|].
  rewrite IH; reflexivity.
Qed.

Lemma find_map_through {A B : Type} (f : A -> B) (p : B -> bool) (l : list A) :
  option_map f (find (fun a => p (f a)) l) = find p (map f l).
Proof.
  induction l as [|a l IH]; simpl; [reflexivity|].
  destruct (p (f a)); [reflexivity|exact IH].
Qed.

Lemma mapAlloc_cons {A B : Type} (f : A -> Heap.Alloc B) a rest (n : Heap.Ref) :
  Heap.mapAlloc f (a :: rest) n =
  let (b, n1) := f a n in
  let (bs, n2) := Heap.mapAlloc f rest n1 in
  (b :: bs, n2).
Proof. reflexivity. Qed.

(** Copying a list of crossings allocates one object per member, at
    consecutive references. *)
Lemma mapAlloc_new (g : Heap.CrossingObj -> Crossing) items (n : Heap.Ref) :
  map Heap.fields (fst (Heap.mapAlloc (fun o => Heap.new (g o)) items n))
  = map g items
  /\ map Heap.ref (fst (Heap.mapAlloc (fun o => Heap.new (g o)) items n))
     = seq n (List.length items)
  /\ snd (Heap.mapAlloc (fun o => Heap.new (g o)) items n)
     = (n + List.length items)%nat.
Proof.
  revert n; induction items as [|o items IH]; intros n.
  - simpl; unfold Heap.ret; simpl; repeat split; lia.
  - rewrite mapAlloc_cons.
    change (Heap.new (g o) n)
      with ({| Heap.ref := n; Heap.fields := g o |}, S n).
    cbv beta iota.
    destruct (Heap.mapAlloc _ items (S n)) as [objs n'] eqn:Hrest.
    specialize (IH (S n)); rewrite Hrest in IH; simpl in IH.
    destruct IH as (Hf & Hr & Hn); simpl.
    rewrite Hf, Hr, Hn; repeat split; lia.
Qed.

Section Simulation.

Variable braid : Heap.BraidObj.
Variable n : Heap.Ref.

Lemma cloneBraid_erase :
  eraseBraid (fst (Heap.cloneBraid braid n)) = cloneBraid (eraseBraid braid)
  /\ map Heap.ref (Heap.crossings (fst (Heap.cloneBraid braid n)))
     = seq n (List.length (Heap.crossings braid))
  /\ snd (Heap.cloneBraid braid n)
     = (n + List.length (Heap.crossings braid))%nat.
Proof.
  unfold Heap.cloneBraid, Heap.bind, Heap.ret.
  pose proof (mapAlloc_new
                (fun crossing =>
                   {| kind := kind (Heap.fields crossing);
                      rowIndex := rowIndex (Heap.fields crossing);
                      colIndex := colIndex (Heap.fields crossing) |})
                (Heap.crossings braid) n) as (Hf & Hr & Hn).
  destruct (Heap.mapAlloc _ _ n) as [copies n'] eqn:Hcopies; simpl in *.
  assert (Hset : Heap.newSet copies = copies).
  { apply newSet_distinct; unfold distinctRefs; rewrite Hr; apply seq_NoDup. }
  rewrite Hset; repeat split; try assumption.
  unfold eraseBraid, cloneBraid, eraseSet; simpl.
  rewrite Hf, map_map; reflexivity.
Qed.

Lemma removeCrossing_erase row col :
  eraseBraid (fst (Heap.removeCrossing row col braid n))
  = removeCrossing row col (eraseBraid braid)
  /\ (n <= snd (Heap.removeCrossing row col braid n))%nat.
Proof.
  unfold Heap.removeCrossing, Heap.bind, Heap.ret.
  destruct cloneBraid_erase as (He & Hr & Hn).
  destruct (Heap.cloneBraid braid n) as [newBraid n'] eqn:Hclone.
  simpl in *; split; [|lia].
  rewrite newSet_distinct.
  2: { apply distinctRefs_filter; unfold distinctRefs; rewrite Hr.
       apply seq_NoDup. }
  unfold removeCrossing; cbv zeta; rewrite <- He.
  unfold eraseBraid, eraseSet; simpl; f_equal.
  apply (map_filter_through Heap.fields
           (fun crossing => (rowIndex crossing =? row)
                            && (colIndex crossing =? col))).
Qed.

Lemma createCrossing_erase (crossing : Heap.CrossingObj) :
  (Heap.ref crossing < n)%nat ->
  eraseBraid (fst (Heap.createCrossing crossing braid n))
  = createCrossing (Heap.fields crossing) (eraseBraid braid).
Proof.
  intros Hold.
  unfold Heap.createCrossing, Heap.bind, Heap.ret.
  destruct cloneBraid_erase as (He & Hr & Hn).
  destruct (Heap.cloneBraid braid n) as [newBraid n'] eqn:Hclone.
  simpl in *.
  rewrite newSet_distinct.
  2: { unfold distinctRefs; rewrite map_app, Hr; simpl.
       apply NoDup_app; [apply seq_NoDup|constructor; [intros []|constructor]|].
       intros r Hin [<-|[]]; apply in_seq in Hin; lia. }
  unfold createCrossing; cbv zeta; rewrite <- He.
  unfold eraseBraid, eraseSet; simpl; rewrite map_app; reflexivity.
Qed.

End Simulation.

Lemma updateCrossing_erase braid (n : Heap.Ref) (crossing : Heap.CrossingObj) :
  (Heap.ref crossing < n)%nat ->
  eraseBraid (fst (Heap.updateCrossing crossing braid n))
  = updateCrossing (Heap.fields crossing) (eraseBraid braid).
Proof.
  intros Hold.
  unfold Heap.updateCrossing, Heap.bind.
  destruct (removeCrossing_erase braid n
              (rowIndex (Heap.fields crossing))
              (colIndex (Heap.fields crossing))) as (He & Hn).
  destruct (Heap.removeCrossing _ _ braid n) as [removed n'] eqn:Hrem.
  simpl in *.
  rewrite createCrossing_erase by lia.
  unfold updateCrossing; rewrite He; reflexivity.
Qed.

Lemma fst_bind_ret {A B : Type} (m : Heap.Alloc A) (g : A -> B) (n : Heap.Ref) :
  fst (Heap.bind m (fun a => Heap.ret (g a)) n) = g (fst (m n)).
Proof. unfold Heap.bind, Heap.ret; destruct (m n); reflexivity. Qed.

(** The heap model run from any allocator state, with the references
    forgotten, is the list model. *)
Lemma handleCrossingRequest_erase braid location (n : Heap.Ref) :
  eraseOutcome (fst (Heap.handleCrossingRequest braid location n))
  = handleCrossingRequest (eraseBraid braid) location.
Proof.
  destruct location as [col row].
  unfold Heap.handleCrossingRequest, handleCrossingRequest.
  change (length (eraseBraid braid)) with (Heap.length braid).
  change (ropes (eraseBraid braid)) with (Heap.ropes braid).
  change (crossings (eraseBraid braid))
    with (map Heap.fields (Heap.crossings braid)).
  destruct (row <? 0); [reflexivity|].
  destruct (col <? 0); [reflexivity|].
  destruct (row >? jsMinus (Heap.length braid) 1); [reflexivity|].
  destruct (col >? jsMinus (Heap.ropes braid) 2); [reflexivity|].
  rewrite <- (map_filter_through Heap.fields (fun c => rowIndex c =? row)).
  rewrite <- (existsb_map_through Heap.fields
                (fun c => Z.abs (jsMinus (colIndex c) col) =? 1)).
  rewrite <- (find_map_through Heap.fields (fun c => colIndex c =? col)).
  destruct (existsb _ _); [reflexivity|].
  destruct (find _ _) as [found|]; simpl.
  - destruct (kind (Heap.fields found)).
    + unfold Heap.bind at 1, Heap.new; rewrite fst_bind_ret; simpl.
      rewrite updateCrossing_erase by (simpl; lia); reflexivity.
    + rewrite fst_bind_ret; simpl.
      rewrite (proj1 (removeCrossing_erase braid n row col)); reflexivity.
  - unfold Heap.bind at 1, Heap.new; rewrite fst_bind_ret; simpl.
    rewrite createCrossing_erase by (simpl; lia); reflexivity.
Qed.

(** ** Determinism *)

(** Claim C10.  Two calls on braids of equal value (same [length], same
    [ropes], crossings of equal fields in the same order, whatever the
    identities of the objects and the state of the allocator) and at equal
    locations have equal outcomes: the same error, [null] twice, or two
    braids of equal value. *)
Theorem handleCrossingRequest_deterministic
  (braid1 braid2 : Heap.BraidObj) (location1 location2 : Z * Z)
  (n1 n2 : Heap.Ref) :
  eraseBraid braid1 = eraseBraid braid2 ->
  location1 = location2 ->
  eraseOutcome (fst (Heap.handleCrossingRequest braid1 location1 n1))
  = eraseOutcome (fst (Heap.handleCrossingRequest braid2 location2 n2)).
Proof.
  intros Hbraid Hloc.
  rewrite !handleCrossingRequest_erase, Hbraid, Hloc; reflexivity.
Qed.

Lemma handleCrossingRequest_deterministic_witness :
  eraseOutcome
    (fst (Heap.handleCrossingRequest
            {| Heap.length := 10; Heap.ropes := 10;
               Heap.crossings :=
                 [ {| Heap.ref := 0%nat; Heap.fields := crossingS 2 3 |};
                   {| Heap.ref := 1%nat; Heap.fields := crossingZ 4 4 |} ] |}
            (3, 2) 2%nat))
  = eraseOutcome
      (fst (Heap.handleCrossingRequest
              {| Heap.length := 10; Heap.ropes := 10;
                 Heap.crossings :=
                   [ {| Heap.ref := 7%nat; Heap.fields := crossingS 2 3 |};
                     {| Heap.ref := 5%nat; Heap.fields := crossingZ 4 4 |} ] |}
              (3, 2) 9%nat)).
Proof.
  apply handleCrossingRequest_deterministic; reflexivity.
Defined.

(** * Further properties of the module *)

(** ** When the handler returns a braid *)

(** X1.  The handler returns a braid exactly when none of its four
    range checks fires and no crossing of the row sits one column away;
    in every other case it throws or returns [null].  For dimensions up
    to [2 ^ 53] the range checks say that the row is in
    [0 .. length - 1] and the column in [0 .. ropes - 2]. *)
Theorem handleCrossingRequest_succeeds_iff (braid : Braid) (col row : Z) :
  ((exists braid',
      handleCrossingRequest braid (col, row) = Returns (Some braid'))
   <-> inBounds braid col row /\ ~ adjacentConflict braid col row)
  /\ (Z.abs (length braid - 1) <= 2 ^ 53 ->
      Z.abs (ropes braid - 2) <= 2 ^ 53 ->
      ((exists braid',
          handleCrossingRequest braid (col, row) = Returns (Some braid'))
       <-> (0 <= row <= length braid - 1 /\ 0 <= col <= ropes braid - 2)
           /\ ~ adjacentConflict braid col row)).
Proof.
  assert (Hiff : (exists braid',
                    handleCrossingRequest braid (col, row)
                    = Returns (Some braid'))
                 <-> inBounds braid col row /\ ~ adjacentConflict braid col row).
  { split.
    - intros [braid' Hret].
      apply handleCrossingRequest_returns_braid in Hret; tauto.
    - intros [Hbounds Hfree].
      rewrite (handleCrossingRequest_inBounds _ _ _ Hbounds).
      rewrite (no_conflict_test _ _ _ Hfree).
      destruct (crossingAt braid col row) as [c|]; [destruct (kind c)|]; eauto. }
  split; [exact Hiff|].
  intros Hlen Hropes.
  rewrite Hiff, (inBounds_exact_iff _ _ _ Hlen Hropes); tauto.
Qed.

Lemma handleCrossingRequest_succeeds_iff_witness :
  (exists braid',
     handleCrossingRequest (braidOf [crossingS 2 5]) (3, 2)
     = Returns (Some braid'))
  <-> (0 <= 2 <= length (braidOf [crossingS 2 5]) - 1
       /\ 0 <= 3 <= ropes (braidOf [crossingS 2 5]) - 2)
      /\ ~ adjacentConflict (braidOf [crossingS 2 5]) 3 2.
Proof.
  apply (proj2 (handleCrossingRequest_succeeds_iff (braidOf [crossingS 2 5]) 3 2));
    vm_compute; congruence.
Defined.

(** X2.  A braid without enough room has no valid location: with
    [length <= 0] or [ropes <= 1] every request throws. *)
Theorem handleCrossingRequest_no_room (braid : Braid) (col row : Z) :
  length braid <= 0 \/ ropes braid <= 1 ->
  exists e, handleCrossingRequest braid (col, row) = Throws e.
Proof.
  intros Hsmall.
  assert (Hlen : length braid <= 0 -> jsMinus (length braid) 1 < 0)
    by (intros; apply roundDouble_neg; lia).
  assert (Hropes : ropes braid <= 1 -> jsMinus (ropes braid) 2 < 0)
    by (intros; apply roundDouble_neg; lia).
  destruct (Z.lt_ge_cases row 0) as [Hr|Hr].
  { exists (NegativeY row); apply handleCrossingRequest_throws_iff; auto. }
  destruct (Z.lt_ge_cases col 0) as [Hc|Hc].
  { exists (NegativeX col); apply handleCrossingRequest_throws_iff; auto. }
  destruct (Z_gt_le_dec row (jsMinus (length braid) 1)) as [Hr'|Hr'].
  { exists (YTooHigh row (length braid)).
    apply handleCrossingRequest_throws_iff; right; right; left; auto. }
  exists (XTooHigh col (ropes braid)).
  apply handleCrossingRequest_throws_iff; right; right; right.
  repeat split; try assumption; lia.
Qed.

Lemma handleCrossingRequest_no_room_witness :
  exists e,
    handleCrossingRequest {| length := 10; ropes := 1; crossings := [] |} (0, 0)
    = Throws e.
Proof.
  apply (handleCrossingRequest_no_room
           {| length := 10; ropes := 1; crossings := [] |} 0 0).
  right; simpl; lia.
Defined.

(** ** Invariants the handler keeps *)

(** X3.  If the cell of every crossing of the input passes the range
    checks of the handler, so does the cell of every crossing of a
    returned braid.  (For dimensions up to [2 ^ 53] the cells that pass
    are rows [0 .. length - 1] and columns [0 .. ropes - 2],
    [inBounds_exact_iff].) *)
Theorem handleCrossingRequest_keeps_in_bounds
  (braid braid' : Braid) (col row : Z) :
  crossingsInBounds braid ->
  handleCrossingRequest braid (col, row) = Returns (Some braid') ->
  crossingsInBounds braid'
  /\ (Z.abs (length braid - 1) <= 2 ^ 53 ->
      Z.abs (ropes braid - 2) <= 2 ^ 53 ->
      forall crossing,
        In crossing (crossings braid') ->
        0 <= rowIndex crossing <= length braid - 1
        /\ 0 <= colIndex crossing <= ropes braid - 2).
Proof.
  intros Hin Hret.
  apply handleCrossingRequest_returns_braid in Hret
    as (Hbounds & _ & Hlen & Hropes & Hcases).
  assert (Hb' : inBounds braid' col row)
    by (unfold inBounds in *; rewrite Hlen, Hropes; exact Hbounds).
  assert (Hold : forall c, In c (crossings braid) ->
                           inBounds braid' (colIndex c) (rowIndex c)).
  { intros c Hc; specialize (Hin c Hc).
    unfold inBounds in *; rewrite Hlen, Hropes; exact Hin. }
  assert (Hall : crossingsInBounds braid').
  { intros c Hc.
    destruct Hcases as [[_ Hcs]|[(c0 & _ & _ & Hcs)|(c0 & _ & _ & Hcs)]];
      rewrite Hcs in Hc.
    - apply in_app_or in Hc as [Hc|[<-|[]]]; auto.
    - apply in_app_or in Hc as [Hc|[<-|[]]]; auto.
      apply filter_In in Hc as [Hc _]; auto.
    - apply filter_In in Hc as [Hc _]; auto. }
  split; [exact Hall|].
  intros Hl Hr c Hc; specialize (Hall c Hc).
  rewrite <- Hlen in Hl |- *; rewrite <- Hropes in Hr |- *.
  apply (inBounds_exact_iff braid' _ _ Hl Hr), Hall.
Qed.

Lemma handleCrossingRequest_keeps_in_bounds_witness :
  crossingsInBounds (braidOf [crossingS 4 4; crossingS 2 3]).
Proof.
  apply (handleCrossingRequest_keeps_in_bounds
           (braidOf [crossingS 4 4]) (braidOf [crossingS 4 4; crossingS 2 3]) 3 2).
  - intros c [<-|[]]; closed_bounds.
  - reflexivity.
Defined.

(** X4.  If no two crossings of the input sit in neighbouring columns of
    one row, the same holds of a returned braid. *)
Theorem handleCrossingRequest_keeps_no_adjacent_pair
  (braid braid' : Braid) (col row : Z) :
  noAdjacentPair (crossings braid) ->
  handleCrossingRequest braid (col, row) = Returns (Some braid') ->
  noAdjacentPair (crossings braid').
Proof.
  intros Hinv Hret.
  apply handleCrossingRequest_returns_braid in Hret
    as (_ & Hfree & _ & _ & Hcases).
  assert (Hfresh : forall c, In c (crossings braid) ->
            rowIndex c = row -> Z.abs (colIndex c - col) <> 1).
  { intros c Hc Hrow Hadj; apply Hfree; exists c; auto. }
  assert (Hcell : forall c, In c (filter (atLocation row col) (crossings braid)) ->
            rowIndex c = row /\ colIndex c = col).
  { intros c Hc; apply filter_In in Hc as [_ Hc].
    apply atLocation_true; exact Hc. }
  intros c1 c2 H1 H2 Hrow.
  destruct Hcases as [[_ Hcs]|[(c0 & _ & _ & Hcs)|(c0 & _ & _ & Hcs)]];
    rewrite Hcs in H1, H2.
  - apply in_app_or in H1 as [H1|[<-|[]]];
      apply in_app_or in H2 as [H2|[<-|[]]]; simpl in *.
    + apply Hinv; assumption.
    + apply (Hfresh c1); assumption.
    + specialize (Hfresh c2 H2 (eq_sym Hrow)); lia.
    + lia.
  - apply in_app_or in H1 as [H1|[<-|[]]];
      apply in_app_or in H2 as [H2|[<-|[]]]; simpl in *;
      try apply Hcell in H1; try apply Hcell in H2; lia.
  - apply Hcell in H1; apply Hcell in H2; lia.
Qed.

Lemma handleCrossingRequest_keeps_no_adjacent_pair_witness :
  noAdjacentPair (crossings (braidOf [crossingS 2 5; crossingS 2 3])).
Proof.
  apply (handleCrossingRequest_keeps_no_adjacent_pair
           (braidOf [crossingS 2 5]) (braidOf [crossingS 2 5; crossingS 2 3]) 3 2).
  - intros c1 c2 [<-|[]] [<-|[]] _; simpl; lia.
  - reflexivity.
Defined.

(** ** The cycle as the code runs it *)

(** X5.  No request empties a cell: in every braid the handler returns,
    the requested cell holds at least one crossing. *)
Theorem handleCrossingRequest_never_empties
  (braid braid' : Braid) (col row : Z) :
  handleCrossingRequest braid (col, row) = Returns (Some braid') ->
  exists crossing,
    In crossing (crossings braid') /\
    rowIndex crossing = row /\ colIndex crossing = col.
Proof.
  intros Hret.
  apply handleCrossingRequest_cell_stays_occupied in Hret as [c Hc].
  exists c; apply crossingAt_Some, Hc.
Qed.

Lemma handleCrossingRequest_never_empties_witness :
  exists crossing,
    In crossing (crossings (braidOf [crossingZ 2 3])) /\
    rowIndex crossing = 2 /\ colIndex crossing = 3.
Proof.
  apply (handleCrossingRequest_never_empties
           (braidOf [crossingZ 2 3; crossingS 6 6]) (braidOf [crossingZ 2 3]) 3 2).
  reflexivity.
Defined.

(** X6.  A request on an occupied cell keeps the crossings of that cell
    and drops the crossings of every other cell. *)
Theorem handleCrossingRequest_occupied_drops_others
  (braid braid' : Braid) (col row : Z) (found : Crossing) :
  crossingAt braid col row = Some found ->
  handleCrossingRequest braid (col, row) = Returns (Some braid') ->
  onlyCell row col (crossings braid') /\
  (forall crossing,
     In crossing (crossings braid) ->
     rowIndex crossing = row -> colIndex crossing = col ->
     In crossing (crossings braid')).
Proof.
  intros Hfound Hret.
  apply handleCrossingRequest_returns_braid in Hret
    as (_ & _ & _ & _ & [[Hnone _]|[(c0 & _ & _ & Hcs)|(c0 & _ & _ & Hcs)]]).
  - congruence.
  - rewrite Hcs; split.
    + intros c Hc; apply in_app_or in Hc as [Hc|[<-|[]]]; [|simpl; auto].
      apply filter_In in Hc as [_ Hc]; apply atLocation_true, Hc.
    + intros c Hc Hrow Hcol; apply in_or_app; left.
      apply filter_In; split; [assumption|apply atLocation_true; auto].
  - rewrite Hcs; split.
    + intros c Hc.
      apply filter_In in Hc as [_ Hc]; apply atLocation_true, Hc.
    + intros c Hc Hrow Hcol.
      apply filter_In; split; [assumption|apply atLocation_true; auto].
Qed.

Lemma handleCrossingRequest_occupied_drops_others_witness :
  onlyCell 2 3 (crossings (braidOf [crossingS 2 3; crossingZ 2 3])) /\
  (forall crossing,
     In crossing (crossings (braidOf [crossingS 2 3; crossingS 5 5])) ->
     rowIndex crossing = 2 -> colIndex crossing = 3 ->
     In crossing (crossings (braidOf [crossingS 2 3; crossingZ 2 3]))).
Proof.
  apply (handleCrossingRequest_occupied_drops_others
           (braidOf [crossingS 2 3; crossingS 5 5])
           (braidOf [crossingS 2 3; crossingZ 2 3]) 3 2 (crossingS 2 3));
    reflexivity.
Defined.

Lemma find_pointwise {A : Type} (p q : A -> bool) (l : list A) :
  (forall a, p a = q a) -> find p l = find q l.
Proof.
  intros Hpq; induction l as [|a l IH]; simpl; [reflexivity|].
  rewrite Hpq, IH; reflexivity.
Qed.

Lemma onlyCell_no_conflict braid col row :
  onlyCell row col (crossings braid) -> ~ adjacentConflict braid col row.
Proof.
  intros Hall (c & Hin & _ & Hadj); apply Hall in Hin; lia.
Qed.

(** X7.  Once a braid has crossings in one cell only and the first of
    them is an [S], a request at that cell appends a [Z] crossing and
    leaves the braid in the same situation: the cell grows by one [Z] at
    every request and is never emptied. *)
Theorem handleCrossingRequest_S_first_grows
  (braid : Braid) (col row : Z) (first : Crossing) :
  inBounds braid col row ->
  onlyCell row col (crossings braid) ->
  crossingAt braid col row = Some first ->
  kind first = KindS ->
  exists braid',
    handleCrossingRequest braid (col, row) = Returns (Some braid') /\
    crossings braid' =
      crossings braid ++ [{| kind := KindZ; rowIndex := row; colIndex := col |}] /\
    inBounds braid' col row /\
    onlyCell row col (crossings braid') /\
    crossingAt braid' col row = Some first.
Proof.
  intros Hbounds Honly Hfirst Hkind.
  assert (Hfree := onlyCell_no_conflict _ _ _ Honly).
  assert (Hkeep : filter (atLocation row col) (crossings braid) = crossings braid).
  { apply forallb_filter_id, forallb_forall.
    intros c Hc; apply atLocation_true, Honly, Hc. }
  eexists; split; [apply (dispatch_S _ _ _ Hbounds Hfree first Hfirst Hkind)|].
  simpl; rewrite Hkeep.
  split; [reflexivity|].
  split; [exact Hbounds|].
  split.
  - intros c Hc; apply in_app_or in Hc as [Hc|[<-|[]]];
      [apply Honly, Hc|simpl; auto].
  - unfold crossingAt in *; simpl; rewrite find_append, Hfirst; reflexivity.
Qed.

Lemma handleCrossingRequest_S_first_grows_witness :
  exists braid',
    handleCrossingRequest (braidOf [crossingS 2 3; crossingZ 2 3]) (3, 2)
    = Returns (Some braid') /\
    crossings braid' =
      crossings (braidOf [crossingS 2 3; crossingZ 2 3])
      ++ [{| kind := KindZ; rowIndex := 2; colIndex := 3 |}] /\
    inBounds braid' 3 2 /\
    onlyCell 2 3 (crossings braid') /\
    crossingAt braid' 3 2 = Some (crossingS 2 3).
Proof.
  apply (handleCrossingRequest_S_first_grows
           (braidOf [crossingS 2 3; crossingZ 2 3]) 3 2 (crossingS 2 3)).
  - closed_bounds.
  - intros c [<-|[<-|[]]]; simpl; auto.
  - reflexivity.
  - reflexivity.
Defined.

(** X8.  A request on a cell whose first crossing is a [Z] returns the
    braid reduced to the crossings of that cell, and a further request at
    the same location returns that same braid again: the cell stays
    occupied. *)
Theorem handleCrossingRequest_Z_first_stuck
  (braid : Braid) (col row : Z) (first : Crossing) :
  inBounds braid col row ->
  ~ adjacentConflict braid col row ->
  crossingAt braid col row = Some first ->
  kind first = KindZ ->
  exists braid',
    handleCrossingRequest braid (col, row) = Returns (Some braid') /\
    crossings braid' = filter (atLocation row col) (crossings braid) /\
    handleCrossingRequest braid' (col, row) = Returns (Some braid').
Proof.
  intros Hbounds Hfree Hfirst Hkind.
  eexists; split; [apply (dispatch_Z _ _ _ Hbounds Hfree first Hfirst Hkind)|].
  split; [reflexivity|].
  set (braid' := {| length := length braid; ropes := ropes braid;
                    crossings := filter (atLocation row col) (crossings braid) |}).
  assert (Honly : onlyCell row col (crossings braid')).
  { intros c Hc; apply filter_In in Hc as [_ Hc]; apply atLocation_true, Hc. }
  assert (Hfirst' : crossingAt braid' col row = Some first).
  { unfold crossingAt in *; simpl.
    rewrite find_filter.
    rewrite <- Hfirst; apply find_pointwise; intros c; apply andb_diag. }
  rewrite (dispatch_Z braid' col row Hbounds
             (onlyCell_no_conflict _ _ _ Honly) first Hfirst' Hkind).
  unfold braid'; simpl; do 3 f_equal.
  apply forallb_filter_id, forallb_forall.
  intros c Hc; apply filter_In in Hc as [_ Hc]; exact Hc.
Qed.

Lemma handleCrossingRequest_Z_first_stuck_witness :
  exists braid',
    handleCrossingRequest (braidOf [crossingZ 2 3; crossingS 5 5]) (3, 2)
    = Returns (Some braid') /\
    crossings braid' =
      filter (atLocation 2 3) (crossings (braidOf [crossingZ 2 3; crossingS 5 5])) /\
    handleCrossingRequest braid' (3, 2) = Returns (Some braid').
Proof.
  apply (handleCrossingRequest_Z_first_stuck
           (braidOf [crossingZ 2 3; crossingS 5 5]) 3 2 (crossingZ 2 3)).
  - closed_bounds.
  - intros (c & Hin & Hrow & Hadj); simpl in Hin.
    destruct Hin as [<-|[<-|[]]]; simpl in *; lia.
  - reflexivity.
  - reflexivity.
Defined.

(** X9.  After any successful request the two neighbouring columns of the
    requested cell are blocked: a request there, on the returned braid,
    is rejected. *)
Theorem handleCrossingRequest_blocks_neighbours
  (braid braid' : Braid) (col row col' : Z) :
  handleCrossingRequest braid (col, row) = Returns (Some braid') ->
  Z.abs (col' - col) = 1 ->
  inBounds braid' col' row ->
  handleCrossingRequest braid' (col', row) = Returns None.
Proof.
  intros Hret Hnext Hbounds.
  apply handleCrossingRequest_cell_stays_occupied in Hret as [c Hc].
  apply crossingAt_Some in Hc as (Hin & Hrow & Hcol).
  rewrite (handleCrossingRequest_inBounds _ _ _ Hbounds).
  assert (Htest : adjacentConflict braid' col' row)
    by (exists c; repeat split; [assumption|assumption|lia]).
  apply adjacency_test_spec in Htest; rewrite Htest; reflexivity.
Qed.

Lemma handleCrossingRequest_blocks_neighbours_witness :
  handleCrossingRequest (braidOf [crossingS 2 3]) (4, 2) = Returns None.
Proof.
  apply (handleCrossingRequest_blocks_neighbours createBraid _ 3 2 4).
  - reflexivity.
  - reflexivity.
  - closed_bounds.
Defined.

(** X10.  On the braid [createBraid()] a request succeeds exactly on the
    10 rows and 9 columns [0 <= rowIndex <= 9], [0 <= colIndex <= 8], and
    then returns the default braid with the single [S] crossing of that
    cell; everywhere else it throws. *)
Theorem createBraid_first_request (col row : Z) :
  (0 <= row <= 9 /\ 0 <= col <= 8 ->
   handleCrossingRequest createBraid (col, row)
   = Returns (Some {| length := 10; ropes := 10;
                      crossings :=
                        [{| kind := KindS; rowIndex := row; colIndex := col |}] |}))
  /\ (~ (0 <= row <= 9 /\ 0 <= col <= 8) ->
      exists e, handleCrossingRequest createBraid (col, row) = Throws e).
Proof.
  assert (E1 : jsMinus (length createBraid) 1 = 9) by reflexivity.
  assert (E2 : jsMinus (ropes createBraid) 2 = 8) by reflexivity.
  split.
  - intros Hin.
    assert (Hbounds : inBounds createBraid col row)
      by (unfold inBounds; rewrite E1, E2; lia).
    assert (Hfree : ~ adjacentConflict createBraid col row)
      by (intros (c & [] & _)).
    exact (dispatch_empty createBraid col row Hbounds Hfree eq_refl).
  - intros Hout.
    destruct (Z.lt_ge_cases row 0) as [Hr|Hr].
    { exists (NegativeY row); apply handleCrossingRequest_throws_iff; auto. }
    destruct (Z.lt_ge_cases col 0) as [Hc|Hc].
    { exists (NegativeX col); apply handleCrossingRequest_throws_iff; auto. }
    destruct (Z_gt_le_dec row 9) as [Hr'|Hr'].
    { exists (YTooHigh row 10).
      apply handleCrossingRequest_throws_iff; right; right; left.
      rewrite E1; repeat split; try assumption; lia. }
    exists (XTooHigh col 10).
    apply handleCrossingRequest_throws_iff; right; right; right.
    rewrite E1, E2; repeat split; try assumption; lia.
Qed.

(** ** The helpers on their own *)

(** X11.  [removeCrossing] at a cell that holds no crossing returns a
    braid without any crossing. *)
Theorem removeCrossing_empty_cell (braid : Braid) (row col : Z) :
  (forall crossing,
     In crossing (crossings braid) ->
     ~ (rowIndex crossing = row /\ colIndex crossing = col)) ->
  crossings (removeCrossing row col braid) = [].
Proof.
  intros Hnone.
  rewrite removeCrossing_crossings; simpl.
  apply filter_atLocation_none, crossingAt_None, Hnone.
Qed.

Lemma removeCrossing_empty_cell_witness :
  crossings (removeCrossing 2 3 (braidOf [crossingS 5 5; crossingZ 2 4])) = [].
Proof.
  apply (removeCrossing_empty_cell (braidOf [crossingS 5 5; crossingZ 2 4]) 2 3).
  simpl; intros c [<-|[<-|[]]]; simpl; lia.
Defined.

(** X12.  [removeCrossing] is idempotent, and applied at two different
    cells one after the other it leaves no crossing at all. *)
Theorem removeCrossing_twice (braid : Braid) (row col row' col' : Z) :
  removeCrossing row col (removeCrossing row col braid)
  = removeCrossing row col braid
  /\ ((row, col) <> (row', col') ->
      crossings (removeCrossing row col (removeCrossing row' col' braid)) = []).
Proof.
  split.
  - rewrite !removeCrossing_crossings; simpl; f_equal.
    apply forallb_filter_id, forallb_forall.
    intros c Hc; apply filter_In in Hc as [_ Hc]; exact Hc.
  - intros Hdiff.
    rewrite !removeCrossing_crossings; simpl.
    induction (crossings braid) as [|c cs IH]; simpl; [reflexivity|].
    destruct (atLocation row' col' c) eqn:Hat'; simpl; [|exact IH].
    destruct (atLocation row col c) eqn:Hat; [|exact IH].
    apply atLocation_true in Hat, Hat'.
    exfalso; apply Hdiff; f_equal; lia.
Qed.

Lemma removeCrossing_twice_witness :
  crossings (removeCrossing 2 3 (removeCrossing 5 5
               (braidOf [crossingS 2 3; crossingZ 5 5]))) = [].
Proof.
  apply (proj2 (removeCrossing_twice (braidOf [crossingS 2 3; crossingZ 5 5])
                  2 3 5 5)).
  intros Heq; discriminate Heq.
Defined.

(** X13.  [createCrossing] does not look at the cell it fills: on a braid
    with at most one crossing per cell, the result has at most one
    crossing per cell exactly when the cell of the new crossing was
    empty. *)
Theorem createCrossing_unique_iff (crossing : Crossing) (braid : Braid) :
  uniquePerCell (crossings braid) ->
  (uniquePerCell (crossings (createCrossing crossing braid)) <->
   crossingAt braid (colIndex crossing) (rowIndex crossing) = None).
Proof.
  intros Huniq.
  rewrite createCrossing_crossings; simpl.
  unfold uniquePerCell, cells in *; rewrite map_app; simpl.
  rewrite crossingAt_None; split.
  - intros Hnd c Hin [Hrow Hcol].
    apply NoDup_remove_2 in Hnd; apply Hnd.
    rewrite app_nil_r; apply in_map_iff; exists c; split; [|assumption].
    rewrite Hrow, Hcol; reflexivity.
  - intros Hnone.
    apply NoDup_app; [exact Huniq|constructor; [intros []|constructor]|].
    intros cell Hin [<-|[]].
    apply in_map_iff in Hin as (c & Heq & Hin).
    apply (Hnone c Hin); injection Heq; auto.
Qed.

Lemma createCrossing_unique_iff_witness :
  uniquePerCell (crossings (createCrossing (crossingZ 2 3) (braidOf [crossingS 5 5])))
  <-> crossingAt (braidOf [crossingS 5 5])
                 (colIndex (crossingZ 2 3)) (rowIndex (crossingZ 2 3)) = None.
Proof.
  apply (createCrossing_unique_iff (crossingZ 2 3) (braidOf [crossingS 5 5])).
  unfold uniquePerCell; simpl; constructor; [intros []|constructor].
Defined.

(** X14.  [updateCrossing] returns a braid whose crossings all sit in the
    cell of the new crossing; the new crossing is one of them and is the
    last in insertion order; when that cell was empty the new crossing is
    the only one left. *)
Theorem updateCrossing_only_cell (crossing : Crossing) (braid : Braid) :
  onlyCell (rowIndex crossing) (colIndex crossing)
           (crossings (updateCrossing crossing braid))
  /\ In crossing (crossings (updateCrossing crossing braid))
  /\ (forall other : Crossing,
        last (crossings (updateCrossing crossing braid)) other = crossing)
  /\ (crossingAt braid (colIndex crossing) (rowIndex crossing) = None ->
      crossings (updateCrossing crossing braid) = [crossing]).
Proof.
  rewrite updateCrossing_crossings; simpl; split; [|split; [|split]].
  - intros c Hc; apply in_app_or in Hc as [Hc|[<-|[]]]; [|auto].
    apply filter_In in Hc as [_ Hc]; apply atLocation_true, Hc.
  - apply in_or_app; right; left; reflexivity.
  - intros other; apply last_last.
  - intros Hnone; rewrite (filter_atLocation_none _ _ _ Hnone); reflexivity.
Qed.

Lemma updateCrossing_only_cell_witness :
  crossings (updateCrossing (crossingZ 2 3) (braidOf [crossingS 5 5]))
  = [crossingZ 2 3].
Proof.
  apply (proj2 (proj2 (proj2 (updateCrossing_only_cell
                                (crossingZ 2 3) (braidOf [crossingS 5 5]))))).
  reflexivity.
Defined.

(** ** Requests at two cells *)

(** X15.  Requests at two different empty cells that neither conflict
    with the braid nor with each other succeed in either order, and the
    two orders give the same crossings up to insertion order: the
    crossings of the input and the two new [S] crossings. *)
Theorem handleCrossingRequest_creations_commute
  (braid : Braid) (col1 row1 col2 row2 : Z) :
  inBounds braid col1 row1 ->
  inBounds braid col2 row2 ->
  ~ adjacentConflict braid col1 row1 ->
  ~ adjacentConflict braid col2 row2 ->
  crossingAt braid col1 row1 = None ->
  crossingAt braid col2 row2 = None ->
  (row1, col1) <> (row2, col2) ->
  ~ (row1 = row2 /\ Z.abs (col1 - col2) = 1) ->
  exists braid1 braid12 braid2 braid21,
    handleCrossingRequest braid (col1, row1) = Returns (Some braid1) /\
    handleCrossingRequest braid1 (col2, row2) = Returns (Some braid12) /\
    handleCrossingRequest braid (col2, row2) = Returns (Some braid2) /\
    handleCrossingRequest braid2 (col1, row1) = Returns (Some braid21) /\
    crossings braid12 =
      crossings braid
      ++ [ {| kind := KindS; rowIndex := row1; colIndex := col1 |};
           {| kind := KindS; rowIndex := row2; colIndex := col2 |} ] /\
    Permutation (crossings braid12) (crossings braid21).
Proof.
  intros Hb1 Hb2 Hf1 Hf2 He1 He2 Hdiff Hapart.
  set (s1 := {| kind := KindS; rowIndex := row1; colIndex := col1 |}).
  set (s2 := {| kind := KindS; rowIndex := row2; colIndex := col2 |}).
  set (b1 := {| length := length braid; ropes := ropes braid;
                crossings := crossings braid ++ [s1] |}).
  set (b2 := {| length := length braid; ropes := ropes braid;
                crossings := crossings braid ++ [s2] |}).
  assert (Hstep : forall (b : Braid) s col row,
            length b = length braid -> ropes b = ropes braid ->
            crossings b = crossings braid ++ [s] ->
            inBounds braid col row ->
            ~ adjacentConflict braid col row ->
            crossingAt braid col row = None ->
            (rowIndex s, colIndex s) <> (row, col) ->
            ~ (rowIndex s = row /\ Z.abs (colIndex s - col) = 1) ->
            handleCrossingRequest b (col, row) =
            Returns (Some {| length := length braid; ropes := ropes braid;
                             crossings :=
                               (crossings braid ++ [s])
                               ++ [{| kind := KindS; rowIndex := row;
                                      colIndex := col |}] |})).
  { intros b s col row Hlen Hropes Hcs Hb Hf He Hd Ha.
    assert (Hb' : inBounds b col row)
      by (unfold inBounds in *; rewrite Hlen, Hropes; exact Hb).
    assert (Hf' : ~ adjacentConflict b col row).
    { intros (c & Hin & Hrow & Hadj); rewrite Hcs in Hin.
      apply in_app_or in Hin as [Hin|[<-|[]]]; [|tauto].
      apply Hf; exists c; auto. }
    assert (He' : crossingAt b col row = None).
    { apply crossingAt_None; intros c Hin [Hrow Hcol]; rewrite Hcs in Hin.
      apply in_app_or in Hin as [Hin|[<-|[]]].
      - rewrite crossingAt_None in He; apply (He c Hin); auto.
      - apply Hd; rewrite Hrow, Hcol; reflexivity. }
    rewrite (dispatch_empty b col row Hb' Hf' He'), Hlen, Hropes, Hcs.
    reflexivity. }
  exists b1.
  exists {| length := length braid; ropes := ropes braid;
            crossings := (crossings braid ++ [s1]) ++ [s2] |}.
  exists b2.
  exists {| length := length braid; ropes := ropes braid;
            crossings := (crossings braid ++ [s2]) ++ [s1] |}.
  split; [apply dispatch_empty; assumption|].
  split.
  { apply (Hstep b1 s1 col2 row2 eq_refl eq_refl eq_refl Hb2 Hf2 He2 Hdiff Hapart). }
  split; [apply dispatch_empty; assumption|].
  split.
  { apply (Hstep b2 s2 col1 row1 eq_refl eq_refl eq_refl Hb1 Hf1 He1).
    - intros Heq; apply Hdiff; symmetry; exact Heq.
    - simpl; intros [Hrow Hadj]; apply Hapart; split; [auto|lia]. }
  simpl; split; [rewrite <- app_assoc; reflexivity|].
  rewrite <- !app_assoc; simpl.
  apply Permutation_app_head, perm_swap.
Qed.

Lemma handleCrossingRequest_creations_commute_witness :
  exists braid1 braid12 braid2 braid21,
    handleCrossingRequest (braidOf [crossingZ 7 7]) (3, 2)
    = Returns (Some braid1) /\
    handleCrossingRequest braid1 (5, 2) = Returns (Some braid12) /\
    handleCrossingRequest (braidOf [crossingZ 7 7]) (5, 2)
    = Returns (Some braid2) /\
    handleCrossingRequest braid2 (3, 2) = Returns (Some braid21) /\
    crossings braid12 =
      crossings (braidOf [crossingZ 7 7])
      ++ [ {| kind := KindS; rowIndex := 2; colIndex := 3 |};
           {| kind := KindS; rowIndex := 2; colIndex := 5 |} ] /\
    Permutation (crossings braid12) (crossings braid21).
Proof.
  apply (handleCrossingRequest_creations_commute (braidOf [crossingZ 7 7]) 3 2 5 2).
  - closed_bounds.
  - closed_bounds.
  - intros (c & [<-|[]] & Hrow & _); simpl in Hrow; lia.
  - intros (c & [<-|[]] & Hrow & _); simpl in Hrow; lia.
  - reflexivity.
  - reflexivity.
  - intros Heq; discriminate Heq.
  - simpl; lia.
Defined.

(** ** Fresh objects: what a returned braid shares with its input *)

Lemma seq_refs_between (s : list Heap.CrossingObj) (n len : nat) :
  map Heap.ref s = seq n len ->
  distinctRefs s /\ refsBetween n (n + len)%nat s.
Proof.
  intros Hrefs; split.
  - unfold distinctRefs; rewrite Hrefs; apply seq_NoDup.
  - intros o Hin; apply (in_map Heap.ref) in Hin.
    rewrite Hrefs in Hin; apply in_seq in Hin; exact Hin.
Qed.

Lemma removeCrossing_refs braid (n : Heap.Ref) row col :
  distinctRefs (Heap.crossings (fst (Heap.removeCrossing row col braid n)))
  /\ refsBetween n (snd (Heap.removeCrossing row col braid n))
       (Heap.crossings (fst (Heap.removeCrossing row col braid n))).
Proof.
  unfold Heap.removeCrossing, Heap.bind, Heap.ret.
  destruct (cloneBraid_erase braid n) as (_ & Hr & Hn).
  destruct (Heap.cloneBraid braid n) as [newBraid n'] eqn:Hclone.
  simpl in *; subst n'.
  apply seq_refs_between in Hr as [Hnd Hbetween].
  rewrite newSet_distinct by (apply distinctRefs_filter, Hnd).
  split; [apply distinctRefs_filter, Hnd|].
  intros o Hin; apply filter_In in Hin as [Hin _]; apply Hbetween, Hin.
Qed.

Lemma createCrossing_refs braid (n : Heap.Ref) (crossing : Heap.CrossingObj) :
  (Heap.ref crossing < n)%nat ->
  distinctRefs (Heap.crossings (fst (Heap.createCrossing crossing braid n)))
  /\ refsBetween (Heap.ref crossing) (snd (Heap.createCrossing crossing braid n))
       (Heap.crossings (fst (Heap.createCrossing crossing braid n))).
Proof.
  intros Hold.
  unfold Heap.createCrossing, Heap.bind, Heap.ret.
  destruct (cloneBraid_erase braid n) as (_ & Hr & Hn).
  destruct (Heap.cloneBraid braid n) as [newBraid n'] eqn:Hclone.
  simpl in *; subst n'.
  apply seq_refs_between in Hr as [Hnd Hbetween].
  assert (Hall : distinctRefs (Heap.crossings newBraid ++ [crossing])).
  { unfold distinctRefs in *; rewrite map_app; simpl.
    apply NoDup_app; [exact Hnd|constructor; [intros []|constructor]|].
    intros r Hin [<-|[]].
    apply in_map_iff in Hin as (o & Heq & Hin).
    apply Hbetween in Hin; lia. }
  rewrite newSet_distinct by exact Hall.
  split; [exact Hall|].
  intros o Hin; apply in_app_or in Hin as [Hin|[<-|[]]]; [|lia].
  apply Hbetween in Hin; lia.
Qed.

Lemma updateCrossing_refs braid (n : Heap.Ref) (crossing : Heap.CrossingObj) :
  (Heap.ref crossing < n)%nat ->
  distinctRefs (Heap.crossings (fst (Heap.updateCrossing crossing braid n)))
  /\ refsBetween (Heap.ref crossing) (snd (Heap.updateCrossing crossing braid n))
       (Heap.crossings (fst (Heap.updateCrossing crossing braid n))).
Proof.
  intros Hold.
  unfold Heap.updateCrossing, Heap.bind.
  destruct (removeCrossing_erase braid n
              (rowIndex (Heap.fields crossing))
              (colIndex (Heap.fields crossing))) as (_ & Hn).
  destruct (Heap.removeCrossing _ _ braid n) as [removed n'] eqn:Hrem.
  simpl in Hn.
  apply createCrossing_refs; lia.
Qed.

(** X16.  [cloneBraid] is a deep copy: the clone has the same [length],
    [ropes] and crossings of the same fields in the same order, but every
    crossing of the clone is a new object, none of them an object of the
    input, and one object is allocated per crossing. *)
Theorem cloneBraid_deep_copy (braid : Heap.BraidObj) (n : Heap.Ref) :
  refsBetween 0%nat n (Heap.crossings braid) ->
  eraseBraid (fst (Heap.cloneBraid braid n)) = eraseBraid braid
  /\ distinctRefs (Heap.crossings (fst (Heap.cloneBraid braid n)))
  /\ (forall o,
        In o (Heap.crossings (fst (Heap.cloneBraid braid n))) ->
        ~ In o (Heap.crossings braid))
  /\ snd (Heap.cloneBraid braid n)
     = (n + List.length (Heap.crossings braid))%nat.
Proof.
  intros Hlive.
  destruct (cloneBraid_erase braid n) as (He & Hr & Hn).
  apply seq_refs_between in Hr as [Hnd Hbetween].
  rewrite He, cloneBraid_same.
  split; [reflexivity|]; split; [exact Hnd|]; split; [|exact Hn].
  intros o Hnew Hold.
  apply Hbetween in Hnew; apply Hlive in Hold; lia.
Qed.

Lemma cloneBraid_deep_copy_witness :
  eraseBraid
    (fst (Heap.cloneBraid
            {| Heap.length := 10; Heap.ropes := 10;
               Heap.crossings :=
                 [ {| Heap.ref := 0%nat; Heap.fields := crossingS 2 3 |};
                   {| Heap.ref := 1%nat; Heap.fields := crossingZ 4 4 |} ] |}
            2%nat))
  = braidOf [crossingS 2 3; crossingZ 4 4].
Proof.
  apply (cloneBraid_deep_copy
           {| Heap.length := 10; Heap.ropes := 10;
              Heap.crossings :=
                [ {| Heap.ref := 0%nat; Heap.fields := crossingS 2 3 |};
                  {| Heap.ref := 1%nat; Heap.fields := crossingZ 4 4 |} ] |}
           2%nat).
  intros o [<-|[<-|[]]]; simpl; lia.
Defined.

(** X17.  A braid returned by the handler is built from objects allocated
    during the call only: its crossings are pairwise distinct objects and
    none of them is an object of the input braid, so the input and the
    result share no crossing. *)
Theorem handleCrossingRequest_result_is_fresh
  (braid braid' : Heap.BraidObj) (location : Z * Z) (n : Heap.Ref) :
  refsBetween 0%nat n (Heap.crossings braid) ->
  fst (Heap.handleCrossingRequest braid location n)
  = Heap.ReturnsObj (Some braid') ->
  distinctRefs (Heap.crossings braid')
  /\ refsBetween n (snd (Heap.handleCrossingRequest braid location n))
       (Heap.crossings braid')
  /\ (forall o,
        In o (Heap.crossings braid') -> ~ In o (Heap.crossings braid)).
Proof.
  intros Hlive Hret.
  assert (Hfresh :
            distinctRefs (Heap.crossings braid')
            /\ refsBetween n (snd (Heap.handleCrossingRequest braid location n))
                 (Heap.crossings braid')).
  { destruct location as [col row].
    unfold Heap.handleCrossingRequest in *.
    destruct (row <? 0); [discriminate|].
    destruct (col <? 0); [discriminate|].
    destruct (row >? jsMinus (Heap.length braid) 1); [discriminate|].
    destruct (col >? jsMinus (Heap.ropes braid) 2); [discriminate|].
    destruct (existsb _ _); [discriminate|].
    destruct (find _ _) as [found|].
    - destruct (kind (Heap.fields found)).
      + pose proof (updateCrossing_refs braid (S n)
                      {| Heap.ref := n;
                         Heap.fields := {| kind := KindZ; rowIndex := row;
                                           colIndex := col |} |}
                      (Nat.lt_succ_diag_r n)) as Hrefs.
        unfold Heap.bind, Heap.ret, Heap.new in Hret |- *.
        cbv beta iota in Hret |- *.
        destruct (Heap.updateCrossing _ braid (S n)) as [newBraid n'].
        simpl in *; injection Hret as <-; exact Hrefs.
      + pose proof (removeCrossing_refs braid n row col) as Hrefs.
        unfold Heap.bind, Heap.ret in Hret |- *.
        destruct (Heap.removeCrossing row col braid n) as [newBraid n'].
        simpl in *; injection Hret as <-; exact Hrefs.
    - pose proof (createCrossing_refs braid (S n)
                    {| Heap.ref := n;
                       Heap.fields := {| kind := KindS; rowIndex := row;
                                         colIndex := col |} |}
                    (Nat.lt_succ_diag_r n)) as Hrefs.
      unfold Heap.bind, Heap.ret, Heap.new in Hret |- *.
      cbv beta iota in Hret |- *.
      destruct (Heap.createCrossing _ braid (S n)) as [newBraid n'].
      simpl in *; injection Hret as <-; exact Hrefs. }
  destruct Hfresh as [Hnd Hbetween].
  split; [exact Hnd|]; split; [exact Hbetween|].
  intros o Hnew Hold.
  apply Hbetween in Hnew; apply Hlive in Hold; lia.
Qed.

Lemma handleCrossingRequest_result_is_fresh_witness :
  distinctRefs [ {| Heap.ref := 5%nat; Heap.fields := crossingS 2 3 |};
                 {| Heap.ref := 2%nat; Heap.fields := crossingZ 2 3 |} ].
Proof.
  apply (handleCrossingRequest_result_is_fresh
           {| Heap.length := 10; Heap.ropes := 10;
              Heap.crossings :=
                [ {| Heap.ref := 0%nat; Heap.fields := crossingS 2 3 |};
                  {| Heap.ref := 1%nat; Heap.fields := crossingS 5 5 |} ] |}
           {| Heap.length := 10; Heap.ropes := 10;
              Heap.crossings :=
                [ {| Heap.ref := 5%nat; Heap.fields := crossingS 2 3 |};
                  {| Heap.ref := 2%nat; Heap.fields := crossingZ 2 3 |} ] |}
           (3, 2) 2%nat).
  - intros o [<-|[<-|[]]]; simpl; lia.
  - reflexivity.
Defined.

(** ** Error messages *)

(** X18.  The message of a range error tells which of the four checks
    failed, however numbers are printed: two errors with the same message
    come from the same check. *)
Theorem errorMessage_tells_check
  (show : Z -> string) (e1 e2 : RangeError) :
  errorMessage show e1 = errorMessage show e2 ->
  match e1, e2 with
  | NegativeY _, NegativeY _
  | NegativeX _, NegativeX _
  | YTooHigh _ _, YTooHigh _ _
  | XTooHigh _ _, XTooHigh _ _ => True
  | _, _ => False
  end.
Proof.
  destruct e1, e2; simpl; intros Hmsg; try exact I; discriminate Hmsg.
Qed.

Lemma errorMessage_tells_check_witness :
  match YTooHigh 10 10, YTooHigh 10 10 with
  | NegativeY _, NegativeY _
  | NegativeX _, NegativeX _
  | YTooHigh _ _, YTooHigh _ _
  | XTooHigh _ _, XTooHigh _ _ => True
  | _, _ => False
  end.
Proof.
  apply (errorMessage_tells_check showZ (YTooHigh 10 10) (YTooHigh 10 10)).
  reflexivity.
Defined.

(** ** One crossing per cell *)

(** X19.  A request on a cell that is empty, or whose first crossing is a
    [Z], keeps the invariant that no cell holds two crossings. *)
Theorem handleCrossingRequest_unique_outside_S
  (braid braid' : Braid) (col row : Z) :
  uniquePerCell (crossings braid) ->
  (forall crossing,
     crossingAt braid col row = Some crossing -> kind crossing = KindZ) ->
  handleCrossingRequest braid (col, row) = Returns (Some braid') ->
  uniquePerCell (crossings braid').
Proof.
  intros Huniq HnotS Hret.
  exact (uniquePerCell_kept_outside_S braid col row braid' Huniq Hret HnotS).
Qed.

Lemma handleCrossingRequest_unique_outside_S_witness :
  uniquePerCell (crossings (braidOf [crossingS 5 5; crossingS 2 3])).
Proof.
  apply (handleCrossingRequest_unique_outside_S
           (braidOf [crossingS 5 5]) (braidOf [crossingS 5 5; crossingS 2 3]) 3 2).
  - unfold uniquePerCell; simpl; constructor; [intros []|constructor].
  - intros c Hc; discriminate Hc.
  - reflexivity.
Defined.

Lemma createBraid_first_request_witness :
  handleCrossingRequest createBraid (8, 9)
  = Returns (Some {| length := 10; ropes := 10;
                     crossings :=
                       [{| kind := KindS; rowIndex := 9; colIndex := 8 |}] |}).
Proof.
  apply (proj1 (createBraid_first_request 8 9)); lia.
Defined.
